(** * Voxel::DepthCamera — capture pipeline, callback table and session control

    A shallow embedding of [Voxel/DepthCamera.cpp] and the statements that
    relate it to its natural-language specification.

    Conventions.
    - [uint32_t] values are integers in [Z] with the wrap-around written out
      ([uint32]); bit operations are those of [Z].
    - [int] values are integers in [Z] as well ([int32]).
    - Reads and writes through an index or a pointer that C++ leaves undefined
      are made explicit: the embedding stops with a [Failure].  A function that
      runs past its last statement without a [return] is marked as such.
    - Floating-point numbers and the functions of the C mathematics library are
      an interface ([Floating]); nothing below depends on how they round.
    - Logging has no effect on the state and is left out. *)

From Stdlib Require Import ZArith List Lia Reals Lra.
From stdpp Require Import base option list gmap strings.

Local Open Scope Z_scope.

(** ** Machine integers *)

Definition uint32 (z : Z) : Z := z mod 2 ^ 32.

(** A value of type [int]: the result of an [int] operation, or of a
    conversion to [int], brought back into the range of the type.  Overflow of
    a signed operation is undefined in C++; the two's-complement result is
    written out here, and statements about such results are made only where no
    overflow occurs. *)
Definition int32 (z : Z) : Z := (z + 2 ^ 31) mod 2 ^ 32 - 2 ^ 31.

(** ** Floating point *)

(** The numeric operations used by the point-cloud projection.  [of_int] is the
    conversion of an integer, [fis_zero x] the comparison [x == 0]. *)
Class Floating (F : Type) := {
  fzero : F;
  fone : F;
  fpi : F;
  of_int : Z → F;
  fadd : F → F → F;
  fmul : F → F → F;
  fdiv : F → F → F;
  fsqrt : F → F;
  fsin : F → F;
  fcos : F → F;
  ftan : F → F;
  fatan : F → F;
  fis_zero : F → bool
}.

(** ** The stage identifiers *)

(** Modelled from the spec: the enumeration [FrameCallBackType] is declared in
    the absent header DepthCamera.h.  The source indexes the slot array
    [_callback] with it, runs over the slots up to [CALLBACK_TYPE_COUNT] and
    there are four stages, so the enumerators number the stages 0 to 3 in
    pipeline order and [CALLBACK_TYPE_COUNT] is 4. *)
Inductive FrameCallBackType :=
  | CALLBACK_RAW_FRAME_UNPROCESSED
  | CALLBACK_RAW_FRAME_PROCESSED
  | CALLBACK_DEPTH_FRAME
  | CALLBACK_XYZI_POINT_CLOUD_FRAME
  | CALLBACK_TYPE_COUNT.

Definition enum_value (t : FrameCallBackType) : Z :=
  match t with
  | CALLBACK_RAW_FRAME_UNPROCESSED => 0
  | CALLBACK_RAW_FRAME_PROCESSED => 1
  | CALLBACK_DEPTH_FRAME => 2
  | CALLBACK_XYZI_POINT_CLOUD_FRAME => 3
  | CALLBACK_TYPE_COUNT => 4
  end.

#[global] Instance FrameCallBackType_eq_dec : EqDecision FrameCallBackType.
Proof. solve_decision. Defined.

(** The bit that [registerCallback] sets for a stage: [1 << type]. *)
Definition subscription_bit (t : FrameCallBackType) : Z :=
  Z.shiftl 1 (enum_value t).

(** A stage of the pipeline, as opposed to the count. *)
Definition is_stage (t : FrameCallBackType) : Prop :=
  enum_value t < enum_value CALLBACK_TYPE_COUNT.

(** ** Parameters *)

(** A parameter handle: the object it points to has a name; [param_object]
    tells two objects of the same name apart. *)
Record ParameterPtr := { name : string; param_object : nat }.

#[global] Instance ParameterPtr_eq_dec : EqDecision ParameterPtr.
Proof. solve_decision. Defined.

(** ** Frames *)

(** Modelled from the spec: the frame classes are declared in absent headers.
    Every frame carries an identifier and a timestamp; raw and processed
    frames carry samples. *)
Record RawFrame := { raw_id : Z; raw_timestamp : Z; raw_data : list Z }.

Record ProcessedFrame := { proc_id : Z; proc_timestamp : Z; proc_data : list Z }.

(** The integer type of a frame's width and height is declared in an absent
    header; they are natural numbers here.  The conversion's counters [index],
    [x] and [y] are [int] in the source and run from zero up to these sizes;
    they are natural numbers here as well (they stay in the range of [int]
    for frames of less than 2^31 pixels). *)
Record FrameSize := { width : nat; height : nat }.

Section Frames.
Context {F : Type}.

Record DepthFrame := {
  depth_id : Z;
  depth_timestamp : Z;
  size : FrameSize;
  depth : list F;
  amplitude : list F
}.

Record IntensityPoint := { pt_x : F; pt_y : F; pt_z : F; pt_i : F }.

Record XYZIPointCloudFrame := {
  id : Z;
  timestamp : Z;
  points : list IntensityPoint
}.

(** What a [PointCloudFramePtr] can point to: an [XYZIPointCloudFrame], or an
    object of another class derived from [PointCloudFrame], for which the
    [dynamic_cast] of the conversion gives null. *)
Inductive PointCloudFrame :=
  | XYZI (f : XYZIPointCloudFrame)
  | OtherPointCloud (other_id other_timestamp : Z).

Inductive Frame :=
  | FrameRaw (f : RawFrame)
  | FrameProcessed (f : ProcessedFrame)
  | FrameDepth (f : DepthFrame)
  | FramePointCloud (f : PointCloudFrame).

End Frames.

Arguments DepthFrame : clear implicits.
Arguments IntensityPoint : clear implicits.
Arguments XYZIPointCloudFrame : clear implicits.
Arguments PointCloudFrame : clear implicits.
Arguments Frame : clear implicits.

(** ** Callbacks, devices and the session object *)

(** A [CallbackType] is a function object: empty ([None], what assigning [0]
    leaves) or holding a callable, told apart by a number. *)
Abbreviation CallbackType := (option nat).

(** The programmer capability, an object outside this file.  What a call of
    its [reset()] answers is an input of [reset] below: each call is a new
    external operation. *)
Record Programmer := { programmer_object : nat }.

Record Streamer := { streamer_object : nat }.

(** A launched thread and the member function it runs. *)
Inductive Thread := ThreadRunning_captureThreadWrapper.

(** Modelled from the spec: the class is declared in the absent header
    DepthCamera.h.  [_callback] is the fixed-size table of per-stage callback
    slots, an array indexed by the stage's number; [_callBackTypesRegistered]
    is the subscription mask, a [uint32_t]. *)

Record DepthCamera := {
  _id : string;
  _parameters : gmap string ParameterPtr;
  _callback : list CallbackType;
  _callBackTypesRegistered : Z;
  _running : bool;
  _threadActive : bool;
  _captureThread : option Thread;
  _programmer : option Programmer;
  _streamer : option Streamer
}.

Definition set_callback (cb : list CallbackType) (c : DepthCamera) :=
  {| _id := _id c; _parameters := _parameters c; _callback := cb;
     _callBackTypesRegistered := _callBackTypesRegistered c;
     _running := _running c; _threadActive := _threadActive c;
     _captureThread := _captureThread c; _programmer := _programmer c;
     _streamer := _streamer c |}.

Definition set_callBackTypesRegistered (m : Z) (c : DepthCamera) :=
  {| _id := _id c; _parameters := _parameters c; _callback := _callback c;
     _callBackTypesRegistered := m;
     _running := _running c; _threadActive := _threadActive c;
     _captureThread := _captureThread c; _programmer := _programmer c;
     _streamer := _streamer c |}.

Definition set_running (b : bool) (c : DepthCamera) :=
  {| _id := _id c; _parameters := _parameters c; _callback := _callback c;
     _callBackTypesRegistered := _callBackTypesRegistered c;
     _running := b; _threadActive := _threadActive c;
     _captureThread := _captureThread c; _programmer := _programmer c;
     _streamer := _streamer c |}.

Definition set_threadActive (b : bool) (c : DepthCamera) :=
  {| _id := _id c; _parameters := _parameters c; _callback := _callback c;
     _callBackTypesRegistered := _callBackTypesRegistered c;
     _running := _running c; _threadActive := b;
     _captureThread := _captureThread c; _programmer := _programmer c;
     _streamer := _streamer c |}.

Definition set_captureThread (t : option Thread) (c : DepthCamera) :=
  {| _id := _id c; _parameters := _parameters c; _callback := _callback c;
     _callBackTypesRegistered := _callBackTypesRegistered c;
     _running := _running c; _threadActive := _threadActive c;
     _captureThread := t; _programmer := _programmer c;
     _streamer := _streamer c |}.

Definition set_devices (p : option Programmer) (s : option Streamer)
    (c : DepthCamera) :=
  {| _id := _id c; _parameters := _parameters c; _callback := _callback c;
     _callBackTypesRegistered := _callBackTypesRegistered c;
     _running := _running c; _threadActive := _threadActive c;
     _captureThread := _captureThread c; _programmer := p; _streamer := s |}.

(** Modelled from the spec: the constructor is in the absent header.  A session
    is constructed with an empty parameter set and an empty callback table, is
    not running and has no thread. *)
Definition new_DepthCamera (ident : string) (p : option Programmer)
    (s : option Streamer) : DepthCamera :=
  {| _id := ident; _parameters := ∅;
     _callback := replicate (Z.to_nat (enum_value CALLBACK_TYPE_COUNT)) None;
     _callBackTypesRegistered := 0;
     _running := false; _threadActive := false; _captureThread := None;
     _programmer := p; _streamer := s |}.

(** The slot array used as a condition ([!_callback], [... and _callback]): an
    array decays to the address of its first element, which is never null,
    whatever the slots hold. *)
Definition array_as_condition {A} (a : list A) : bool := true.

(** A function object used as a condition: does it hold a callable? *)
Definition function_as_condition (f : CallbackType) : bool :=
  match f with Some _ => true | None => false end.

(** *** _addParameters *)

Fixpoint _addParameters (params : list ParameterPtr)
    (_parameters : gmap string ParameterPtr) : bool * gmap string ParameterPtr :=
  match params with
  | [] => (true, _parameters)
  | p :: rest =>
      match _parameters !! name p with
      | None => _addParameters rest (<[name p := p]> _parameters)
      | Some _ => (false, _parameters)
      end
  end.

(** *** clearCallback, registerCallback *)

(** [for (i = lo; i < lo + n; i++) body], the state threaded through. *)
Fixpoint for_each {St : Type} (lo n : nat) (body : nat → St → St) (s : St) : St :=
  match n with
  | O => s
  | S n' => for_each (S lo) n' body (body lo s)
  end.

(** How a call of a member function declared [bool] ends: at a [return]
    statement, or by running past its last statement without one.  C++ leaves
    the latter undefined: the session given is the one reached when the last
    statement is done, and nothing is known of what follows. *)
Inductive BoolCall :=
  | returns (result : bool) (c : DepthCamera)
  | runs_off_the_end (c : DepthCamera).

(** The function's only statement is the loop over the slots; there is no
    [return]. *)
Definition clearCallback (c : DepthCamera) : BoolCall :=
  runs_off_the_end
    (set_callback
       (for_each 0 (Z.to_nat (enum_value CALLBACK_TYPE_COUNT))
          (λ i cb, <[i := None]> cb) (_callback c))
       c).

Definition registerCallback (type : FrameCallBackType) (f : CallbackType)
    (c : DepthCamera) : bool * DepthCamera :=
  if enum_value type <? enum_value CALLBACK_TYPE_COUNT then
    (true,
     set_callback (<[Z.to_nat (enum_value type) := f]> (_callback c))
       (set_callBackTypesRegistered
          (uint32 (Z.lor (_callBackTypesRegistered c)
                         (Z.shiftl 1 (enum_value type))))
          c))
  else (false, c).

(** The table invariant of the specification: bit [i] of the mask is set iff
    slot [i] holds a callable. *)
Definition table_invariant (c : DepthCamera) : Prop :=
  ∀ t, is_stage t →
    Z.testbit (_callBackTypesRegistered c) (enum_value t) = true ↔
    ∃ f, _callback c !! Z.to_nat (enum_value t) = Some (Some f).

(** *** start, stop, reset *)

(** The driver's [_start()] answers [driver_start]. *)
Definition start (driver_start : bool) (c : DepthCamera) : bool * DepthCamera :=
  if negb (array_as_condition (_callback c)) then (false, c)
  else if negb driver_start then (false, c)
  else
    (true,
     set_captureThread (Some ThreadRunning_captureThreadWrapper)
       (set_running true c)).

Definition stop (c : DepthCamera) : bool * DepthCamera :=
  (true, set_running false c).

(** [programmer_reset] is what this call of [_programmer->reset()] answers.
    [None]: [_programmer] is null and the call is undefined. *)
Definition reset (programmer_reset : bool) (c : DepthCamera)
    : option (bool * DepthCamera) :=
  let '(stopped, c1) := stop c in
  if negb stopped then Some (false, c1)
  else
    match _programmer c1 with
    | None => None
    | Some _ =>
        if negb programmer_reset then Some (false, c1)
        else Some (true, set_devices None None c1)
    end.

(** *** wait *)

(** What [wait()] does: nothing, or [_captureThread->join()], which is
    undefined when no thread was ever created. *)
Inductive WaitOutcome :=
  | returns_at_once
  | joins (t : Thread)
  | joins_null_thread.

Definition wait (c : DepthCamera) : WaitOutcome :=
  if _threadActive c then
    match _captureThread c with
    | Some t => joins t
    | None => joins_null_thread
    end
  else returns_at_once.

(** The launched thread runs [_captureThreadWrapper]; this is its first
    statement, [_threadActive = true]. *)
Definition _captureThreadWrapper_entry (c : DepthCamera) : DepthCamera :=
  set_threadActive true c.

(** ** The capture thread: events, store and control flow *)

Inductive Failure :=
  | out_of_range          (* an index past the end of an array or vector *)
  | bad_function_call.    (* an empty function object was called *)

Section Pipeline.
Context {F : Type} `{!Floating F}.

(** What one iteration does that can be seen from outside: the external
    operations it calls and the callbacks it invokes, with their arguments
    (session identity, frame, stage). *)
Inductive Event :=
  | Called_captureRawUnprocessedFrame
  | Called_processRawFrame
  | Called_convertToDepthFrame
  | Called_convertToPointCloudFrame
  | Called_getFieldOfView
  | Invoked (f : nat) (camera : string) (frame : Frame F) (type : FrameCallBackType).

(** Point-cloud frames live in a store and are reached through handles
    ([PointCloudFramePtr], null is [None]), so that a frame written through one
    handle is seen changed through every other.
    Modelled from the spec: the buffer pools are in an absent header;
    [_pointCloudBuffers] is the handle that the pool's [get()] hands out; the
    raw and depth pools only supply the output buffers of the external
    operations and are part of those. *)
Record World := {
  events : list Event;
  heap : gmap positive (PointCloudFrame F);
  _pointCloudBuffers : option positive
}.

(** A statement either falls through with a value, leaves the iteration with
    [continue], or stops the thread with a failure. *)
Inductive Flow (A : Type) :=
  | Normal (a : A) (w : World)
  | Continue (w : World)
  | Stopped (e : Failure) (w : World).

Arguments Normal {A} a w.
Arguments Continue {A} w.
Arguments Stopped {A} e w.

Definition Step (A : Type) : Type := World → Flow A.

#[global] Instance Step_ret : MRet Step := λ A a w, Normal a w.

#[global] Instance Step_bind : MBind Step := λ A B k m w,
  match m w with
  | Normal a w' => k a w'
  | Continue w' => Continue w'
  | Stopped e w' => Stopped e w'
  end.

Definition emit (e : Event) : Step unit := λ w,
  Normal tt {| events := events w ++ [e]; heap := heap w;
               _pointCloudBuffers := _pointCloudBuffers w |}.

Definition fail {A} (e : Failure) : Step A := λ w, Stopped e w.

Definition continue {A} : Step A := λ w, Continue w.

(** [if (!ok) continue;] *)
Definition continue_unless (ok : bool) : Step unit :=
  if ok then mret tt else continue.

Definition world_of {A} (r : Flow A) : World :=
  match r with Normal _ w | Continue w | Stopped _ w => w end.

(** *** The external operations *)

(** The driver's answers during one iteration.  An operation that returns
    [true] leaves a frame in its output buffer ([Some]); [getFieldOfView] maps
    the content of its output parameter to its return value and the new
    content. *)
Record Driver := {
  _captureRawUnprocessedFrame : option RawFrame;
  _processRawFrame : RawFrame → option ProcessedFrame;
  _convertToDepthFrame : ProcessedFrame → option (DepthFrame F);
  getFieldOfView : F → bool * F
}.

Definition call_captureRawUnprocessedFrame (drv : Driver) : Step (option RawFrame) :=
  _ ← emit Called_captureRawUnprocessedFrame;
  mret (_captureRawUnprocessedFrame drv).

Definition call_processRawFrame (drv : Driver) (f : RawFrame)
    : Step (option ProcessedFrame) :=
  _ ← emit Called_processRawFrame;
  mret (_processRawFrame drv f).

Definition call_convertToDepthFrame (drv : Driver) (f : ProcessedFrame)
    : Step (option (DepthFrame F)) :=
  _ ← emit Called_convertToDepthFrame;
  mret (_convertToDepthFrame drv f).

Definition call_getFieldOfView (drv : Driver) (out : F) : Step (bool * F) :=
  _ ← emit Called_getFieldOfView;
  mret (getFieldOfView drv out).

(** [if (!op(...)) continue;] for an operation with an output buffer. *)
Definition or_continue {A} (m : Step (option A)) : Step A :=
  r ← m;
  match r with Some a => mret a | None => continue end.

(** *** Callback dispatch *)

(** [_callback[type]]: reading past the array is undefined. *)
Definition slot (c : DepthCamera) (type : FrameCallBackType) : Step CallbackType :=
  match _callback c !! Z.to_nat (enum_value type) with
  | Some f => mret f
  | None => fail out_of_range
  end.

(** Calling slot [type] with the session, the frame and the stage. *)
Definition invoke (c : DepthCamera) (type : FrameCallBackType) (frame : Frame F)
    : Step unit :=
  f ← slot c type;
  match f with
  | Some g => emit (Invoked g (_id c) frame type)
  | None => fail bad_function_call
  end.

(** Returns the function's result and the new content of the reference
    parameter [callBackTypesToBeCalled]. *)
Definition _callbackAndContinue (c : DepthCamera) (callBackTypesToBeCalled : Z)
    (type : FrameCallBackType) (frame : Frame F) : Step (bool * Z) :=
  _ ← (if negb (Z.lor callBackTypesToBeCalled (enum_value type) =? 0) then
         f ← slot c type;
         if function_as_condition f then invoke c type frame else mret tt
       else mret tt);
  let callBackTypesToBeCalled :=
    Z.land callBackTypesToBeCalled (uint32 (Z.lnot (enum_value type))) in
  mret (negb (callBackTypesToBeCalled =? 0), callBackTypesToBeCalled).

(** *** Depth frame to point cloud *)

Definition zero_point : IntensityPoint F :=
  {| pt_x := fzero; pt_y := fzero; pt_z := fzero; pt_i := fzero |}.

(** A default-constructed [XYZIPointCloudFrame]; the conversion overwrites its
    identifier and timestamp at once. *)
Definition new_XYZIPointCloudFrame : XYZIPointCloudFrame F :=
  {| id := 0; timestamp := 0; points := [] |}.

(** [dynamic_cast<XYZIPointCloudFrame *>(pointCloudFrame.get())] and, when that
    is null, [new XYZIPointCloudFrame()] assigned to the handle.  A handle
    always refers to a live object; an address without one is treated like a
    failed cast. *)
Definition cast_or_new (pointCloudFrame : option positive)
    : Step (positive * XYZIPointCloudFrame F) := λ w,
  let fresh_frame :=
    let l := fresh (dom (heap w)) in
    Normal (l, new_XYZIPointCloudFrame)
      {| events := events w;
         heap := <[l := XYZI new_XYZIPointCloudFrame]> (heap w);
         _pointCloudBuffers := _pointCloudBuffers w |} in
  match pointCloudFrame with
  | Some l =>
      match heap w !! l with
      | Some (XYZI f) => Normal (l, f) w
      | _ => fresh_frame
      end
  | None => fresh_frame
  end.

(** Writing the object behind a handle. *)
Definition store (l : positive) (f : XYZIPointCloudFrame F) : Step unit := λ w,
  Normal tt {| events := events w; heap := <[l := XYZI f]> (heap w);
               _pointCloudBuffers := _pointCloudBuffers w |}.

(** [for (i = lo; i < lo + n; i++) body], where the body can hit an undefined
    read ([None]). *)
Fixpoint for_each_checked {St : Type} (lo n : nat) (body : nat → St → option St)
    (s : St) : option St :=
  match n with
  | O => Some s
  | S n' =>
      match body lo s with
      | Some s' => for_each_checked (S lo) n' body s'
      | None => None
      end
  end.

(** The point computed for pixel [(x, y)] from its depth [r] and amplitude
    [a].  [x1] and [y1] are [int] variables, and [x1*x1 + y1*y1] is computed
    in [int]. *)
Definition pixel_point (w h : nat) (focalLength : F) (x y : nat) (r a : F)
    : IntensityPoint F :=
  let x1 := int32 (Z.of_nat x - Z.of_nat w / 2) in
  let y1 := int32 (Z.of_nat y - Z.of_nat h / 2) in
  let phi := fatan (fdiv (fmul (of_int y1) fone) (of_int x1)) in
  let phi := if x1 <? 0 then fadd fpi phi else phi in
  let theta :=
    fatan (fdiv (fsqrt (of_int (int32 (int32 (x1 * x1) + int32 (y1 * y1)))))
             focalLength) in
  {| pt_x := fmul (fmul r (fsin theta)) (fcos phi);
     pt_y := fmul (fmul r (fsin theta)) (fsin phi);
     pt_z := fmul r (fcos theta);
     pt_i := a |}.

(** The body of the inner loop on the pair ([index], [f->points]); [index++]
    is the loop's increment. *)
Definition pixel_body (d : DepthFrame F) (w h : nat) (focalLength : F) (y x : nat)
    (s : nat * list (IntensityPoint F)) : option (nat * list (IntensityPoint F)) :=
  let '(index, pts) := s in
  _ ← pts !! index;
  r ← depth d !! index;
  a ← amplitude d !! index;
  Some (S index, <[index := pixel_point w h focalLength x y r a]> pts).

Definition pixel_loops (d : DepthFrame F) (w h : nat) (focalLength : F)
    (pts : list (IntensityPoint F)) : option (list (IntensityPoint F)) :=
  snd <$>
    for_each_checked 0 h
      (λ y s, for_each_checked 0 w (pixel_body d w h focalLength y) s)
      (0%nat, pts).

(** Returns the function's result and the new content of the reference
    parameter [pointCloudFrame]. *)
Definition _convertToPointCloudFrame (drv : Driver)
    (depthFrame : option (DepthFrame F)) (pointCloudFrame : option positive)
    : Step (bool * option positive) :=
  _ ← emit Called_convertToPointCloudFrame;
  match depthFrame with
  | None => mret (false, pointCloudFrame)
  | Some d =>
      '(l, f) ← cast_or_new pointCloudFrame;
      let f :=
        {| id := depth_id d; timestamp := depth_timestamp d;
           points := resize (width (size d) * height (size d)) zero_point (points f) |} in
      _ ← store l f;
      let w := width (size d) in
      let h := height (size d) in
      let scaleMax :=
        fsqrt (fadd (fdiv (of_int (Z.of_nat (w * w))) (of_int 4))
                    (fdiv (of_int (Z.of_nat (h * h))) (of_int 4))) in
      '(ok, thetaMax) ← call_getFieldOfView drv fzero;
      if negb ok || fis_zero thetaMax then mret (false, Some l)
      else
        let focalLength := fdiv scaleMax (ftan thetaMax) in
        match pixel_loops d w h focalLength (points f) with
        | None => fail out_of_range
        | Some pts =>
            _ ← store l {| id := id f; timestamp := timestamp f; points := pts |};
            mret (true, Some l)
        end
  end.

(** *** One iteration of the capture loop *)

Definition pool_get : Step (option positive) := λ w, Normal (_pointCloudBuffers w) w.

Definition pool_put (p : option positive) : Step unit := λ w,
  Normal tt {| events := events w; heap := heap w; _pointCloudBuffers := p |}.

(** The object behind a handle, for the callback's frame argument. *)
Definition load (p : option positive) : Step (PointCloudFrame F) := λ w,
  match p ≫= (λ l, heap w !! l) with
  | Some f => Normal f w
  | None => Stopped out_of_range w
  end.

(** The body of [while (_running)]. *)
Definition _captureLoop_body (drv : Driver) (c : DepthCamera) : Step unit :=
  let callBackTypesToBeCalled := _callBackTypesRegistered c in
  if (_callBackTypesRegistered c =? 0)
     || (_callBackTypesRegistered c =? enum_value CALLBACK_RAW_FRAME_UNPROCESSED)
  then
    f ← call_captureRawUnprocessedFrame drv;
    match f with
    | Some f =>
        if array_as_condition (_callback c)
        then invoke c CALLBACK_RAW_FRAME_UNPROCESSED (FrameRaw f)
        else mret tt
    | None => mret tt
    end
  else
    f1 ← or_continue (call_captureRawUnprocessedFrame drv);
    '(more, callBackTypesToBeCalled) ←
      _callbackAndContinue c callBackTypesToBeCalled
        CALLBACK_RAW_FRAME_UNPROCESSED (FrameRaw f1);
    _ ← continue_unless more;
    f ← or_continue (call_processRawFrame drv f1);
    '(more, callBackTypesToBeCalled) ←
      _callbackAndContinue c callBackTypesToBeCalled
        CALLBACK_RAW_FRAME_PROCESSED (FrameProcessed f);
    _ ← continue_unless more;
    d ← or_continue (call_convertToDepthFrame drv f);
    '(more, callBackTypesToBeCalled) ←
      _callbackAndContinue c callBackTypesToBeCalled
        CALLBACK_DEPTH_FRAME (FrameDepth d);
    _ ← continue_unless more;
    p ← pool_get;
    '(ok, p) ← _convertToPointCloudFrame drv (Some d) p;
    _ ← pool_put p;
    _ ← continue_unless ok;
    pc ← load p;
    _ ← _callbackAndContinue c callBackTypesToBeCalled
          CALLBACK_XYZI_POINT_CLOUD_FRAME (FramePointCloud pc);
    mret tt.

End Pipeline.

Arguments Event : clear implicits.
Arguments World : clear implicits.
Arguments Flow : clear implicits.
Arguments Step : clear implicits.
Arguments Driver : clear implicits.
Arguments Normal {F A} a w.
Arguments Continue {F A} w.
Arguments Stopped {F A} e w.

(** ** The thread function *)

Section Thread.
Context {F : Type} `{!Floating F}.

(** How the thread function ends: it returns, having called the driver's
    [_stop()] or not, or a failure leaves it. *)
Inductive ThreadEnd :=
  | Returned (stop_called : bool) (w : World F)
  | Terminated (e : Failure) (w : World F).

(** [_captureLoop] in a run in which [_running], which the caller's thread
    writes, is read [true] once for each element of [iterations] (the driver's
    answers during that iteration) and then [false]; [reread] is what the
    test after the loop reads. *)
Fixpoint _captureLoop (iterations : list (Driver F)) (reread : bool)
    (c : DepthCamera) (w : World F) : ThreadEnd :=
  match iterations with
  | [] => Returned (negb reread) w
  | drv :: rest =>
      match _captureLoop_body drv c w with
      | Normal _ w' | Continue w' => _captureLoop rest reread c w'
      | Stopped e w' => Terminated e w'
      end
  end.

End Thread.

Arguments ThreadEnd : clear implicits.
Arguments Returned {F} stop_called w.
Arguments Terminated {F} e w.

(** ** Exact arithmetic as an instance, and sample inputs *)

#[global] Instance R_eq_dec : EqDecision R := Req_dec_T.

#[global] Instance real_Floating : Floating R := {|
  fzero := 0%R;
  fone := 1%R;
  fpi := PI;
  of_int := IZR;
  fadd := Rplus;
  fmul := Rmult;
  fdiv := Rdiv;
  fsqrt := sqrt;
  fsin := sin;
  fcos := cos;
  ftan := tan;
  fatan := atan;
  fis_zero := λ x, bool_decide (x = 0%R)
|}.

Definition sample_camera : DepthCamera :=
  new_DepthCamera "camera0"
    (Some {| programmer_object := 1 |}) (Some {| streamer_object := 1 |}).

(** The 2 by 2 frame of the specification's end-to-end example. *)
Definition sample_depth_frame : DepthFrame R :=
  {| depth_id := 42; depth_timestamp := 1000;
     size := {| width := 2; height := 2 |};
     depth := [1; 1; 1; 1]%R;
     amplitude := [10; 20; 30; 40]%R |}.

Definition sample_driver (fov : bool * R) : Driver R :=
  {| _captureRawUnprocessedFrame :=
       Some {| raw_id := 42; raw_timestamp := 1000; raw_data := [] |};
     _processRawFrame := λ f,
       Some {| proc_id := raw_id f; proc_timestamp := raw_timestamp f;
               proc_data := raw_data f |};
     _convertToDepthFrame := λ _, Some sample_depth_frame;
     getFieldOfView := λ _, fov |}.

Definition sample_old_frame : XYZIPointCloudFrame R :=
  {| id := 7; timestamp := 500; points := [] |}.

(** A world whose pool holds a point-cloud frame from an earlier iteration. *)
Definition sample_world : World R :=
  {| events := []; heap := {[ 1%positive := XYZI sample_old_frame ]};
     _pointCloudBuffers := Some 1%positive |}.

Definition sample_parameters : gmap string ParameterPtr :=
  {[ "gain" := {| name := "gain"; param_object := 0 |} ]}.

Definition sample_batch : list ParameterPtr :=
  [ {| name := "offset"; param_object := 1 |};
    {| name := "gain"; param_object := 2 |} ].

Definition sample_driver_without_frames : Driver R :=
  {| _captureRawUnprocessedFrame := None;
     _processRawFrame := λ _, None;
     _convertToDepthFrame := λ _, None;
     getFieldOfView := λ _, (false, 0%R) |}.


(** The map after inserting the elements of [pre] in order. *)
Definition insert_all (pre : list ParameterPtr) (m : gmap string ParameterPtr)
    : gmap string ParameterPtr :=
  foldl (λ m p, <[name p := p]> m) m pre.

(** ** Notions used by the statements *)

(** The world after one more event. *)
Definition emitted {F} (w : World F) (e : Event F) : World F :=
  {| events := events w ++ [e]; heap := heap w;
     _pointCloudBuffers := _pointCloudBuffers w |}.

(** The stage's subscription bit is in the mask. *)
Definition pending (mask : Z) (t : FrameCallBackType) : Prop :=
  Z.land mask (subscription_bit t) ≠ 0.

(** The event is a callback receiving a point-cloud frame. *)
Definition delivers_point_cloud {F} (e : Event F) : Prop :=
  match e with
  | Invoked _ _ (FramePointCloud _) _ => True
  | Invoked _ _ _ CALLBACK_XYZI_POINT_CLOUD_FRAME => True
  | _ => False
  end.

(** The statement [m] only appends events, each of them satisfying [P], and a
    value it falls through with satisfies [Q]. *)
Definition appends {F A} (P : Event F → Prop) (Q : A → Prop) (m : Step F A) : Prop :=
  ∀ w, ∃ new,
    events (world_of (m w)) = events w ++ new ∧ Forall P new ∧
    match m w with Normal a _ => Q a | _ => True end.

(** The field-of-view query fails, or leaves a zero angle. *)
Definition field_of_view_unavailable {F} `{!Floating F} (drv : Driver F) : Prop :=
  (getFieldOfView drv fzero).1 = false ∨
  fis_zero (getFieldOfView drv fzero).2 = true.


(** The place of an external operation in the pipeline; callbacks have
    none. *)
Definition call_stage {F} (e : Event F) : option nat :=
  match e with
  | Called_captureRawUnprocessedFrame => Some 0%nat
  | Called_processRawFrame => Some 1%nat
  | Called_convertToDepthFrame => Some 2%nat
  | Called_convertToPointCloudFrame => Some 3%nat
  | Called_getFieldOfView => Some 4%nat
  | Invoked _ _ _ _ => None
  end.

Definition external_calls {F} (l : list (Event F)) : list nat := omap call_stage l.

(** The statement [m] calls the external operations at places [lo], [lo + 1],
    ... in this order, at least up to [mid] and never past [hi], and exactly up
    to [hi] when it falls through. *)
Definition phased {F A} (lo mid hi : nat) (m : Step F A) : Prop :=
  ∀ w, ∃ new k,
    events (world_of (m w)) = events w ++ new ∧
    external_calls new = seq lo k ∧
    (mid ≤ lo + k ≤ hi)%nat ∧
    match m w with Normal _ _ => (lo + k)%nat = hi | _ => True end.

(** The stage a frame belongs to. *)
Definition frame_stage {F} (frame : Frame F) : FrameCallBackType :=
  match frame with
  | FrameRaw _ => CALLBACK_RAW_FRAME_UNPROCESSED
  | FrameProcessed _ => CALLBACK_RAW_FRAME_PROCESSED
  | FrameDepth _ => CALLBACK_DEPTH_FRAME
  | FramePointCloud _ => CALLBACK_XYZI_POINT_CLOUD_FRAME
  end.

(** A callback call is proper for a session when it is the callable of the
    slot of its stage, is given the session's identity and a frame of that
    stage. *)
Definition proper_delivery {F} (c : DepthCamera) (e : Event F) : Prop :=
  match e with
  | Invoked g cam frame t =>
      cam = _id c ∧
      _callback c !! Z.to_nat (enum_value t) = Some (Some g) ∧
      frame_stage frame = t
  | _ => True
  end.

(** The number of raw captures among some events. *)
Definition captures {F} (l : list (Event F)) : nat :=
  length (filter (λ n, n = 0%nat) (external_calls l)).

(** * Properties *)

(** ** Parameters *)

Lemma insert_all_snoc pre p m :
  insert_all (pre ++ [p]) m = <[name p := p]> (insert_all pre m).
Proof. unfold insert_all. by rewrite foldl_app. Qed.

Lemma insert_all_lookup_other pre m k :
  k ∉ name <$> pre → insert_all pre m !! k = m !! k.
Proof.
  revert m. induction pre as [|q pre IH]; intros m Hk; [done|].
  rewrite fmap_cons, not_elem_of_cons in Hk. destruct Hk as [Hne Hk].
  cbn. change (foldl _ ?m0 pre) with (insert_all pre m0).
  rewrite IH by done. by rewrite lookup_insert_ne.
Qed.

Lemma insert_all_lookup_member pre m q :
  NoDup (name <$> pre) → q ∈ pre → insert_all pre m !! name q = Some q.
Proof.
  revert m. induction pre as [|q0 pre IH]; intros m Hnd Hq.
  - by apply elem_of_nil in Hq.
  - rewrite fmap_cons in Hnd. apply NoDup_cons in Hnd as [Hfresh Hnd].
    cbn. change (foldl _ ?m0 pre) with (insert_all pre m0).
    apply elem_of_cons in Hq as [->|Hq].
    + rewrite insert_all_lookup_other by done. apply lookup_insert_eq.
    + by apply IH.
Qed.

(** What [_addParameters] returns, in full: on success every element was
    inserted; on failure the elements before the first one whose name is
    taken were inserted and nothing else changed. *)
Lemma _addParameters_outcome params m :
  match _addParameters params m with
  | (true, m') =>
      m' = insert_all params m ∧ NoDup (name <$> params) ∧
      (∀ q, q ∈ params → m !! name q = None)
  | (false, m') =>
      ∃ pre p post,
        params = pre ++ p :: post ∧ m' = insert_all pre m ∧
        NoDup (name <$> pre) ∧ (∀ q, q ∈ pre → m !! name q = None) ∧
        is_Some (insert_all pre m !! name p)
  end.
Proof.
  revert m. induction params as [|p rest IH]; intros m; cbn.
  - split_and!; [done|constructor|]. intros q Hq. by apply elem_of_nil in Hq.
  - destruct (m !! name p) as [old|] eqn:Hp.
    + exists [], p, rest. split_and!; [done|done|constructor| |by cbn; eauto].
      intros q Hq. by apply elem_of_nil in Hq.
    + specialize (IH (<[name p := p]> m)).
      destruct (_addParameters rest (<[name p := p]> m)) as [[] m'].
      * destruct IH as (-> & Hnd & Hfresh). split_and!; [done| |].
        -- constructor; [|done]. intros Hin.
           apply list_elem_of_fmap in Hin as (q & Hname & Hq).
           specialize (Hfresh q Hq). rewrite <- Hname in Hfresh.
           by rewrite lookup_insert_eq in Hfresh.
        -- intros q [->|Hq]%elem_of_cons; [done|].
           specialize (Hfresh q Hq).
           apply lookup_insert_None in Hfresh. tauto.
      * destruct IH as (pre & q & post & -> & -> & Hnd & Hfresh & Hq).
        exists (p :: pre), q, post. split_and!; [done|done| | |done].
        -- cbn. constructor; [|done]. intros Hin.
           apply list_elem_of_fmap in Hin as (q' & Hname & Hq').
           specialize (Hfresh q' Hq'). rewrite <- Hname in Hfresh.
           by rewrite lookup_insert_eq in Hfresh.
        -- intros q' [->|Hq']%elem_of_cons; [done|].
           specialize (Hfresh q' Hq').
           apply lookup_insert_None in Hfresh. tauto.
Qed.

(** C3 (amended): a batch with a name that is already in the map is refused, and
    no entry that was in the map is changed.  The batch splits at its first
    colliding element: the elements before it have pairwise distinct names
    that were not in the map, and they have been inserted; the element itself
    bears a name of the map or of an earlier element; the resulting map is the
    old map with the elements before it, so nothing from it on is
    inserted. *)
Theorem addParameters_collision_keeps_existing params
    (m : gmap string ParameterPtr) :
  (∃ p, p ∈ params ∧ is_Some (m !! name p)) →
  ∃ pre p post,
    params = pre ++ p :: post ∧
    NoDup (name <$> pre) ∧
    (is_Some (m !! name p) ∨ name p ∈ name <$> pre) ∧
    _addParameters params m = (false, insert_all pre m) ∧
    is_Some (insert_all pre m !! name p) ∧
    (∀ q, q ∈ pre → m !! name q = None ∧ insert_all pre m !! name q = Some q) ∧
    (∀ k, k ∉ name <$> pre → insert_all pre m !! k = m !! k) ∧
    m ⊆ insert_all pre m.
Proof.
  intros (p0 & Hin & Htaken).
  pose proof (_addParameters_outcome params m) as Hout.
  destruct (_addParameters params m) as [[] m'].
  - destruct Hout as (_ & _ & Hfresh). rewrite (Hfresh p0 Hin) in Htaken.
    by destruct Htaken.
  - destruct Hout as (pre & p & post & -> & -> & Hnd & Hfresh & Hp).
    exists pre, p, post. split_and!; [done|done| |done|done| | |].
    + destruct (decide (name p ∈ name <$> pre)) as [Hmem|Hmem]; [by right|].
      left. by rewrite <- (insert_all_lookup_other pre m).
    + intros q Hq. split; [by apply Hfresh|by apply insert_all_lookup_member].
    + intros k Hk. by apply insert_all_lookup_other.
    + apply map_subseteq_spec. intros k v Hk.
      destruct (decide (k ∈ name <$> pre)) as [Hmem|Hmem].
      * apply list_elem_of_fmap in Hmem as (q & -> & Hq).
        rewrite (Hfresh q Hq) in Hk. discriminate.
      * by rewrite insert_all_lookup_other.
Qed.

Lemma sample_batch_collides :
  ∃ p, p ∈ sample_batch ∧ is_Some (sample_parameters !! name p).
Proof.
  exists {| name := "gain"; param_object := 2 |}. split.
  - unfold sample_batch. set_solver.
  - by exists {| name := "gain"; param_object := 0 |}.
Qed.

Lemma addParameters_collision_keeps_existing_witness :
  (_addParameters sample_batch sample_parameters).1 = false ∧
  sample_parameters ⊆ (_addParameters sample_batch sample_parameters).2.
Proof.
  destruct (addParameters_collision_keeps_existing sample_batch sample_parameters
              sample_batch_collides)
    as (pre & p & post & _ & _ & _ & -> & _ & _ & _ & Hsub).
  split; [reflexivity|exact Hsub].
Defined.

(** C3 as stated fails: a batch whose second name is taken returns failure
    after its first element has been inserted. *)
Lemma addParameters_partial_insert :
  (∃ p, p ∈ sample_batch ∧ is_Some (sample_parameters !! name p)) ∧
  (_addParameters sample_batch sample_parameters).1 = false ∧
  (_addParameters sample_batch sample_parameters).2 ≠ sample_parameters.
Proof.
  split; [exact sample_batch_collides|]. split; [reflexivity|].
  intros Heq.
  assert ((_addParameters sample_batch sample_parameters).2 !! "offset"
          = sample_parameters !! "offset") as Hlook by (by rewrite Heq).
  vm_compute in Hlook. discriminate.
Qed.

(** ** The callback table *)

(** The session [clearCallback] reaches at the end of its loop: the four slots
    are empty and the mask is the one it started with. *)
Lemma clearCallback_slots c :
  length (_callback c) = 4%nat →
  ∃ c', clearCallback c = runs_off_the_end c' ∧
        _callback c' = replicate 4 None ∧
        _callBackTypesRegistered c' = _callBackTypesRegistered c.
Proof.
  intros Hlen. eexists. split; [reflexivity|]. split; [|reflexivity].
  destruct c as [? ? cb ? ? ? ? ? ?]; cbn in *.
  do 5 (destruct cb as [|? cb]; try discriminate). reflexivity.
Qed.


Lemma registerCallback_stage t f c :
  is_stage t →
  registerCallback t f c =
    (true,
     set_callback (<[Z.to_nat (enum_value t) := f]> (_callback c))
       (set_callBackTypesRegistered
          (uint32 (Z.lor (_callBackTypesRegistered c) (subscription_bit t))) c)).
Proof.
  unfold is_stage, registerCallback. intros Ht.
  by rewrite (proj2 (Z.ltb_lt _ _) Ht).
Qed.

Lemma uint32_testbit z n :
  0 ≤ n < 32 → Z.testbit (uint32 z) n = Z.testbit z n.
Proof.
  intros Hn. unfold uint32. change (2 ^ 32) with (2 ^ 32)%Z.
  rewrite Z.mod_pow2_bits_low by lia. reflexivity.
Qed.

Lemma stage_cases t :
  is_stage t →
  t = CALLBACK_RAW_FRAME_UNPROCESSED ∨ t = CALLBACK_RAW_FRAME_PROCESSED ∨
  t = CALLBACK_DEPTH_FRAME ∨ t = CALLBACK_XYZI_POINT_CLOUD_FRAME.
Proof. unfold is_stage. destruct t; cbn; intros; auto; lia. Qed.

(** Registering a callable keeps the table invariant. *)
Lemma registerCallback_invariant t g c :
  length (_callback c) = 4%nat → is_stage t →
  table_invariant c → table_invariant (registerCallback t (Some g) c).2.
Proof.
  intros Hlen Ht Hinv t' Ht'. rewrite registerCallback_stage by done.
  cbn [snd _callback _callBackTypesRegistered set_callback
       set_callBackTypesRegistered].
  assert (0 ≤ enum_value t' < 32) as Hrange
    by (destruct t'; unfold is_stage in Ht'; cbn in *; lia).
  rewrite uint32_testbit, Z.lor_spec by done.
  unfold subscription_bit. rewrite Z.shiftl_1_l, Z.pow2_bits_eqb
    by (destruct t; cbn; lia).
  destruct (decide (t' = t)) as [->|Hne].
  - rewrite Z.eqb_refl, orb_true_r. split; [intros _|done].
    exists g. apply list_lookup_insert_eq. rewrite Hlen.
    destruct t; unfold is_stage in Ht; cbn in *; lia.
  - assert (enum_value t' ≠ enum_value t) as Hv by (by destruct t', t).
    rewrite list_lookup_insert_ne
      by (destruct t', t; cbn in *; first [congruence | lia]).
    rewrite <- (Hinv t' Ht').
    destruct (Z.eqb_spec (enum_value t) (enum_value t')) as [H0|H0]; [lia|].
    by rewrite orb_false_r.
Qed.

Lemma new_DepthCamera_invariant ident p s :
  table_invariant (new_DepthCamera ident p s).
Proof.
  intros t Ht. cbn.
  destruct (stage_cases t Ht) as [-> | [-> | [-> | ->]]]; cbn;
    (split; [discriminate|intros [f Hf]; discriminate]).
Qed.

(** C4, at the failing input: after a callback has been registered for the
    depth stage, [clearCallback] empties every slot but leaves the depth bit in
    the subscription mask, so that at the end of its loop the table invariant
    no longer holds; it then runs past its last statement without a
    [return]. *)
Theorem clearCallback_keeps_subscription_mask :
  let c := (registerCallback CALLBACK_DEPTH_FRAME (Some 1%nat) sample_camera).2 in
  table_invariant c ∧
  ∃ c',
    clearCallback c = runs_off_the_end c' ∧
    _callback c' = [None; None; None; None] ∧
    _callBackTypesRegistered c' = 4 ∧
    ¬ table_invariant c'.
Proof.
  intros c. split.
  - apply registerCallback_invariant; [done|unfold is_stage; cbn; lia|].
    apply new_DepthCamera_invariant.
  - eexists. split_and!; [reflexivity|reflexivity|reflexivity|].
    intros Hinv.
    destruct (proj1 (Hinv CALLBACK_DEPTH_FRAME ltac:(unfold is_stage; cbn; lia))
                eq_refl) as [f Hf].
    discriminate.
Qed.

(** Whatever number the header gives a stage, that number is not the stage's
    subscription bit, and removing the number's bits from a mask leaves the
    subscription bit in place. *)
Lemma stage_number_is_not_its_bit v : 0 ≤ v → Z.shiftl 1 v ≠ v.
Proof.
  intros Hv. rewrite Z.shiftl_1_l.
  pose proof (Z.pow_gt_lin_r 2 v ltac:(lia) Hv). lia.
Qed.

Lemma removing_number_keeps_bit m v :
  0 ≤ v → Z.testbit (Z.land m (Z.lnot v)) v = Z.testbit m v.
Proof.
  intros Hv. rewrite Z.land_spec, Z.lnot_spec by done.
  assert (Z.testbit v v = false) as ->; [|apply andb_true_r].
  destruct (Z.eq_dec v 0) as [->|Hne]; [done|].
  apply Z.bits_above_log2; [done|]. apply Z.log2_lt_lin. lia.
Qed.

(** ** Session control *)

(** [start] never looks at the subscription mask. *)
Lemma start_outcome driver_start c :
  start driver_start c =
    if driver_start
    then (true, set_captureThread (Some ThreadRunning_captureThreadWrapper)
                  (set_running true c))
    else (false, c).
Proof. by destruct driver_start. Qed.

(** C2, at the failing input: a new session, for which no callback was ever
    registered, is started with a driver whose start succeeds; [start] returns
    success, sets [_running] and launches the capture thread, whose first
    statement sets [_threadActive]. *)
Theorem start_without_callback :
  let c := sample_camera in
  _callBackTypesRegistered c = 0 ∧
  _callback c = [None; None; None; None] ∧
  (start true c).1 = true ∧
  _running (start true c).2 = true ∧
  _captureThread (start true c).2 = Some ThreadRunning_captureThreadWrapper ∧
  _threadActive (_captureThreadWrapper_entry (start true c).2) = true.
Proof. cbn. by split_and!. Qed.

(** C8: when the programmer's reset fails, [reset] returns failure and
    leaves the programmer and the streamer in place; when it succeeds, [reset]
    returns success and both are null. *)
Theorem reset_outcome c p :
  _programmer c = Some p →
  (∃ c', reset false c = Some (false, c') ∧
         _programmer c' = _programmer c ∧ _streamer c' = _streamer c) ∧
  (∃ c', reset true c = Some (true, c') ∧
         _programmer c' = None ∧ _streamer c' = None).
Proof.
  intros Hp. unfold reset; cbn. rewrite Hp. split; cbn; eauto.
Qed.

Lemma reset_outcome_witness :
  (∃ c', reset false sample_camera = Some (false, c') ∧
         _programmer c' = _programmer sample_camera ∧
         _streamer c' = _streamer sample_camera) ∧
  (∃ c', reset true sample_camera = Some (true, c') ∧
         _programmer c' = None ∧ _streamer c' = None).
Proof.
  exact (reset_outcome sample_camera {| programmer_object := 1 |} eq_refl).
Defined.

(** ** Callback dispatch *)

Section Dispatch.
Context {F : Type}.
Implicit Types (w : World F) (frame : Frame F) (c : DepthCamera).

(** What [_callbackAndContinue] does, in full, for a stage of a table with its
    four slots: the callback is called when the inclusive or of the mask and
    the stage's number is non-zero and the slot holds a callable; the bits of
    the stage's number are removed from the mask. *)
Lemma _callbackAndContinue_outcome c m t frame w :
  is_stage t → length (_callback c) = 4%nat →
  _callbackAndContinue c m t frame w =
    let m' := Z.land m (uint32 (Z.lnot (enum_value t))) in
    match (if Z.lor m (enum_value t) =? 0 then None
           else mjoin (_callback c !! Z.to_nat (enum_value t))) with
    | Some g => Normal (negb (m' =? 0), m') (emitted w (Invoked g (_id c) frame t))
    | None => Normal (negb (m' =? 0), m') w
    end.
Proof.
  intros Ht Hlen.
  assert (is_Some (_callback c !! Z.to_nat (enum_value t))) as [f Hf].
  { apply lookup_lt_is_Some. rewrite Hlen.
    destruct t; unfold is_stage in Ht; cbn in *; lia. }
  unfold _callbackAndContinue, invoke, slot, mbind, Step_bind, mret, Step_ret.
  rewrite Hf. destruct (Z.lor m (enum_value t) =? 0); [done|].
  by destruct f.
Qed.

(** The subscription bit of the stage survives the call, whatever the mask. *)
Lemma _callbackAndContinue_keeps_subscription_bit c m t frame w more m' w' :
  is_stage t →
  _callbackAndContinue c m t frame w = Normal (more, m') w' →
  Z.testbit m' (enum_value t) = Z.testbit m (enum_value t).
Proof.
  intros Ht.
  unfold _callbackAndContinue, invoke, slot, mbind, Step_bind, mret, Step_ret.
  intros Hrun.
  assert (m' = Z.land m (uint32 (Z.lnot (enum_value t)))) as ->.
  { repeat match type of Hrun with
           | context [match ?x with _ => _ end] => destruct x; cbn in Hrun
           end; congruence. }
  rewrite Z.land_spec.
  destruct (stage_cases t Ht) as [-> | [-> | [-> | ->]]];
    apply andb_true_r.
Qed.

(** C1, at the failing input: the depth slot holds a callable and the pending
    mask holds the point-cloud bit only; the depth callback is called although
    its bit is not pending. *)
Theorem callbackAndContinue_calls_stage_not_pending frame w :
  let c := (registerCallback CALLBACK_DEPTH_FRAME (Some 1%nat) sample_camera).2 in
  let mask := subscription_bit CALLBACK_XYZI_POINT_CLOUD_FRAME in
  ¬ pending mask CALLBACK_DEPTH_FRAME ∧
  _callbackAndContinue c mask CALLBACK_DEPTH_FRAME frame w =
    Normal (true, mask)
      (emitted w (Invoked 1 "camera0" frame CALLBACK_DEPTH_FRAME)).
Proof. split; [intros Hp; by apply Hp|reflexivity]. Qed.

(** C5, at the failing input: with the depth stage alone pending, the call for
    the depth stage leaves the depth bit in the mask and answers that stages
    remain. *)
Theorem callbackAndContinue_leaves_stage_pending frame w :
  let c := (registerCallback CALLBACK_DEPTH_FRAME (Some 1%nat) sample_camera).2 in
  _callBackTypesRegistered c = subscription_bit CALLBACK_DEPTH_FRAME ∧
  _callbackAndContinue c (subscription_bit CALLBACK_DEPTH_FRAME)
      CALLBACK_DEPTH_FRAME frame w =
    Normal (true, subscription_bit CALLBACK_DEPTH_FRAME)
      (emitted w (Invoked 1 "camera0" frame CALLBACK_DEPTH_FRAME)) ∧
  pending (subscription_bit CALLBACK_DEPTH_FRAME) CALLBACK_DEPTH_FRAME.
Proof. split_and!; [reflexivity|reflexivity|discriminate]. Qed.

End Dispatch.

(** ** Statements that only append events *)

Section Appends.
Context {F : Type}.
Implicit Types (w : World F) (P : Event F → Prop).

Lemma appends_ret {A} P (Q : A → Prop) (a : A) :
  Q a → appends P Q (mret a : Step F A).
Proof.
  intros Ha w. exists []. cbn. by rewrite app_nil_r.
Qed.

Lemma appends_bind {A B} P (Q : A → Prop) (R : B → Prop)
    (m : Step F A) (k : A → Step F B) :
  appends P Q m → (∀ a, Q a → appends P R (k a)) → appends P R (m ≫= k).
Proof.
  intros Hm Hk w. destruct (Hm w) as (new1 & Hev1 & HP1 & HQ).
  unfold mbind, Step_bind. destruct (m w) as [a w1|w1|e w1]; cbn in *.
  - destruct (Hk a HQ w1) as (new2 & Hev2 & HP2 & HR).
    exists (new1 ++ new2). rewrite Hev2, Hev1, app_assoc.
    split_and!; [done|by apply Forall_app|done].
  - by exists new1.
  - by exists new1.
Qed.

Lemma appends_weaken {A} P (Q Q' : A → Prop) (m : Step F A) :
  (∀ a, Q a → Q' a) → appends P Q m → appends P Q' m.
Proof.
  intros HQ Hm w. destruct (Hm w) as (new & Hev & HP & Hres).
  exists new. split_and!; [done|done|]. destruct (m w); auto.
Qed.

Lemma appends_emit P (e : Event F) :
  P e → appends P (λ _, True) (emit e).
Proof.
  intros He w. exists [e]. cbn. split_and!; [done|by constructor|done].
Qed.

Lemma appends_fail {A} P (Q : A → Prop) e : appends P Q (fail e : Step F A).
Proof. intros w. exists []. cbn. by rewrite app_nil_r. Qed.

Lemma appends_continue {A} P (Q : A → Prop) : appends P Q (continue : Step F A).
Proof. intros w. exists []. cbn. by rewrite app_nil_r. Qed.

(** After [if (!ok) continue;] the flag is known to hold. *)
Lemma appends_continue_unless P ok :
  appends P (λ _, ok = true) (continue_unless ok : Step F unit).
Proof.
  destruct ok; [by apply appends_ret|apply appends_continue].
Qed.

Lemma appends_or_continue {A} P (m : Step F (option A)) :
  appends P (λ _, True) m → appends P (λ _, True) (or_continue m).
Proof.
  intros Hm. apply (appends_bind _ _ _ _ _ Hm).
  intros [a|] _; [by apply appends_ret|apply appends_continue].
Qed.

Lemma appends_slot P c t : appends P (λ _, True) (slot c t : Step F _).
Proof.
  unfold slot. destruct (_callback c !! Z.to_nat (enum_value t));
    [by apply appends_ret|apply appends_fail].
Qed.

Lemma appends_invoke P c t (frame : Frame F) :
  (∀ g, P (Invoked g (_id c) frame t)) →
  appends P (λ _, True) (invoke c t frame).
Proof.
  intros HP. apply (appends_bind _ _ _ _ _ (appends_slot P c t)).
  intros [g|] _; [by apply appends_emit|apply appends_fail].
Qed.

Lemma appends_callbackAndContinue P c m t (frame : Frame F) :
  (∀ g, P (Invoked g (_id c) frame t)) →
  appends P (λ _, True) (_callbackAndContinue c m t frame).
Proof.
  intros HP. unfold _callbackAndContinue.
  eapply appends_bind; [|intros; by apply appends_ret].
  destruct (negb _); [|by apply (appends_ret P (λ _, True))].
  apply (appends_bind _ _ _ _ _ (appends_slot P c t)).
  intros f _. destruct (function_as_condition f);
    [by apply appends_invoke|by apply appends_ret].
Qed.

Lemma appends_pool_get P : appends P (λ _, True) (pool_get : Step F _).
Proof. intros w. exists []. cbn. by rewrite app_nil_r. Qed.

Lemma appends_pool_put P p : appends P (λ _, True) (pool_put p : Step F _).
Proof. intros w. exists []. cbn. by rewrite app_nil_r. Qed.

Lemma appends_load P p : appends P (λ _, True) (load p : Step F _).
Proof.
  intros w. exists []. unfold load.
  destruct (p ≫= _); cbn; by rewrite app_nil_r.
Qed.

Lemma appends_store P l f : appends P (λ _, True) (store l f : Step F _).
Proof. intros w. exists []. cbn. by rewrite app_nil_r. Qed.

End Appends.

(** ** Depth frame to point cloud *)

Section Conversion.
Context {F : Type} `{!Floating F}.
Implicit Types (w : World F) (d : DepthFrame F) (drv : Driver F)
  (pts : list (IntensityPoint F)).




(** The cast-or-allocate step always yields a handle and the frame behind it,
    and touches nothing but the store. *)
Lemma cast_or_new_outcome p w :
  ∃ l f0 σ,
    cast_or_new p w =
      Normal (l, f0)
        {| events := events w; heap := σ;
           _pointCloudBuffers := _pointCloudBuffers w |}.
Proof.
  unfold cast_or_new. destruct p as [l|]; [|by eauto].
  destruct (heap w !! l) as [[f|]|]; [|by eauto..].
  exists l, f, (heap w). by destruct w.
Qed.

Lemma cast_or_new_reuse l f0 w :
  heap w !! l = Some (XYZI f0) → cast_or_new (Some l) w = Normal (l, f0) w.
Proof. intros Hl. unfold cast_or_new. by rewrite Hl. Qed.

Ltac unfold_convert :=
  unfold _convertToPointCloudFrame, call_getFieldOfView, store, emit,
    mbind, Step_bind, mret, Step_ret;
  cbn [events heap _pointCloudBuffers].

(** C10: with a depth frame and an [XYZIPointCloudFrame] behind the output
    handle, a failing or zero field of view makes the conversion return
    failure, and by then the frame behind the handle has the depth frame's
    identifier and timestamp and a point sequence resized to width times
    height. *)
Theorem convertToPointCloudFrame_failure_mutates_output drv d l f0 w :
  heap w !! l = Some (XYZI f0) →
  field_of_view_unavailable drv →
  ∃ w' f,
    _convertToPointCloudFrame drv (Some d) (Some l) w = Normal (false, Some l) w' ∧
    heap w' = <[l := XYZI f]> (heap w) ∧
    id f = depth_id d ∧ timestamp f = depth_timestamp d ∧
    points f = resize (width (size d) * height (size d)) zero_point (points f0) ∧
    length (points f) = (width (size d) * height (size d))%nat.
Proof.
  intros Hl Hfov. unfold_convert.
  pose proof (cast_or_new_reuse l f0
                (emitted w Called_convertToPointCloudFrame) Hl) as Hcast.
  unfold emitted in Hcast. rewrite Hcast. cbn [events heap _pointCloudBuffers].
  unfold field_of_view_unavailable in Hfov.
  destruct (getFieldOfView drv fzero) as [ok thetaMax]. cbn [fst snd] in Hfov.
  assert (negb ok || fis_zero thetaMax = true) as ->.
  { destruct Hfov as [-> | ->]; [done|apply orb_true_r]. }
  eexists _, _. split_and!; [reflexivity|reflexivity|done|done|done|].
  apply length_resize.
Qed.

(** With a failing or zero field of view the conversion returns failure,
    whatever its input. *)
Lemma convert_fails_without_field_of_view drv depthFrame p w :
  field_of_view_unavailable drv →
  ∃ p' w', _convertToPointCloudFrame drv depthFrame p w = Normal (false, p') w'.
Proof.
  intros Hfov. unfold_convert. destruct depthFrame as [d|]; [|by eauto].
  destruct (cast_or_new_outcome p (emitted w Called_convertToPointCloudFrame))
    as (l & f0 & σ & Hcast).
  unfold emitted in Hcast. rewrite Hcast. cbn [events heap _pointCloudBuffers].
  unfold field_of_view_unavailable in Hfov.
  destruct (getFieldOfView drv fzero) as [ok thetaMax]. cbn [fst snd] in Hfov.
  assert (negb ok || fis_zero thetaMax = true) as ->.
  { destruct Hfov as [-> | ->]; [done|apply orb_true_r]. }
  by eauto.
Qed.


End Conversion.

(** ** One iteration of the capture loop *)

Section Iteration.
Context {F : Type} `{!Floating F}.
Implicit Types (w : World F) (drv : Driver F) (P : Event F → Prop).

Lemma appends_call_captureRawUnprocessedFrame P drv :
  P Called_captureRawUnprocessedFrame →
  appends P (λ _, True) (call_captureRawUnprocessedFrame drv).
Proof.
  intros HP. eapply appends_bind; [by apply appends_emit|].
  intros _ _. by apply appends_ret.
Qed.

Lemma appends_call_processRawFrame P drv f :
  P Called_processRawFrame →
  appends P (λ _, True) (call_processRawFrame drv f).
Proof.
  intros HP. eapply appends_bind; [by apply appends_emit|].
  intros _ _. by apply appends_ret.
Qed.

Lemma appends_call_convertToDepthFrame P drv f :
  P Called_convertToDepthFrame →
  appends P (λ _, True) (call_convertToDepthFrame drv f).
Proof.
  intros HP. eapply appends_bind; [by apply appends_emit|].
  intros _ _. by apply appends_ret.
Qed.

Lemma appends_call_getFieldOfView P drv out :
  P Called_getFieldOfView →
  appends P (λ r, r = getFieldOfView drv out) (call_getFieldOfView drv out).
Proof.
  intros HP. eapply appends_bind; [by apply appends_emit|].
  intros _ _. by apply appends_ret.
Qed.

Lemma appends_cast_or_new P p :
  appends P (λ _, True) (cast_or_new p : Step F _).
Proof.
  intros w. destruct (cast_or_new_outcome p w) as (l & f0 & σ & ->).
  exists []. cbn. by rewrite app_nil_r.
Qed.

(** The conversion calls nothing but the field-of-view query, and returns
    failure when that is unavailable. *)
Lemma appends_convertToPointCloudFrame P drv depthFrame p :
  P Called_convertToPointCloudFrame → P Called_getFieldOfView →
  appends P (λ r, field_of_view_unavailable drv → r.1 = false)
    (_convertToPointCloudFrame drv depthFrame p).
Proof.
  intros HP1 HP2. unfold _convertToPointCloudFrame.
  eapply appends_bind; [by apply appends_emit|]. intros _ _.
  destruct depthFrame as [d|]; [|by apply appends_ret].
  eapply appends_bind; [apply appends_cast_or_new|]. intros [l f] _.
  eapply appends_bind; [apply appends_store|]. intros _ _.
  eapply appends_bind; [by apply appends_call_getFieldOfView|].
  intros [ok thetaMax] Hfov.
  destruct (negb ok || fis_zero thetaMax) eqn:Hbad; [by apply appends_ret|].
  assert (¬ field_of_view_unavailable drv) as Hgood.
  { unfold field_of_view_unavailable. rewrite <- Hfov. cbn.
    apply orb_false_elim in Hbad as [Hok Hz]. destruct ok; [|done].
    rewrite Hz. intros [|]; discriminate. }
  destruct (pixel_loops _ _ _ _ _); [|apply appends_fail].
  eapply appends_bind; [apply appends_store|]. intros _ _.
  apply appends_ret. intros Hbad'. by destruct Hgood.
Qed.

(** C9: when the field-of-view query fails or reports zero, the conversion
    returns failure for every input, and an iteration of the capture loop
    hands no point-cloud frame to any callback. *)
Theorem field_of_view_unavailable_no_point_cloud drv :
  field_of_view_unavailable drv →
  (∀ depthFrame p w, ∃ p' w',
     _convertToPointCloudFrame drv depthFrame p w = Normal (false, p') w') ∧
  (∀ c w, ∃ new,
     events (world_of (_captureLoop_body drv c w)) = events w ++ new ∧
     ∀ e, e ∈ new → ¬ delivers_point_cloud e).
Proof.
  intros Hfov. split.
  { intros. by apply convert_fails_without_field_of_view. }
  intros c.
  cut (appends (λ e, ¬ delivers_point_cloud e) (λ _, True)
         (_captureLoop_body drv c)).
  { intros Hbody w. destruct (Hbody w) as (new & Hev & Hnew & _).
    exists new. split; [done|]. by apply Forall_forall. }
  unfold _captureLoop_body. destruct (_ || _).
  - eapply appends_bind;
      [apply appends_call_captureRawUnprocessedFrame; cbn; tauto|].
    intros [f|] _; [|by apply appends_ret].
    cbn [array_as_condition]. apply appends_invoke. intros g. cbn. tauto.
  - eapply appends_bind;
      [apply appends_or_continue, appends_call_captureRawUnprocessedFrame;
       cbn; tauto|].
    intros f1 _.
    eapply appends_bind; [apply appends_callbackAndContinue; intros g; cbn; tauto|].
    intros [more1 todo1] _.
    eapply appends_bind; [apply appends_continue_unless|]. intros _ _.
    eapply appends_bind;
      [apply appends_or_continue, appends_call_processRawFrame; cbn; tauto|].
    intros f _.
    eapply appends_bind; [apply appends_callbackAndContinue; intros g; cbn; tauto|].
    intros [more2 todo2] _.
    eapply appends_bind; [apply appends_continue_unless|]. intros _ _.
    eapply appends_bind;
      [apply appends_or_continue, appends_call_convertToDepthFrame; cbn; tauto|].
    intros d _.
    eapply appends_bind; [apply appends_callbackAndContinue; intros g; cbn; tauto|].
    intros [more3 todo3] _.
    eapply appends_bind; [apply appends_continue_unless|]. intros _ _.
    eapply appends_bind; [apply appends_pool_get|]. intros p _.
    eapply appends_bind;
      [apply appends_convertToPointCloudFrame; cbn; tauto|].
    intros [ok p'] Hok. cbn in Hok. rewrite (Hok Hfov).
    eapply appends_bind; [apply appends_pool_put|]. intros _ _.
    eapply appends_bind; [apply (appends_continue_unless _ false)|].
    intros ? Habsurd. discriminate.
Qed.

(** C6, at the failing inputs.  With a callback registered for the
    raw-unprocessed stage only, the mask is that stage's bit, the iteration
    takes the full path and calls the raw-processing operation after the
    callback.  With no callback registered at all, the iteration takes the
    fast path and, the capture having succeeded, calls the empty
    raw-unprocessed slot. *)
Theorem captureLoop_raw_unprocessed_only
    (f : RawFrame) process convert fov w :
  let drv := {| _captureRawUnprocessedFrame := Some f;
                _processRawFrame := process;
                _convertToDepthFrame := convert;
                getFieldOfView := fov |} in
  let c := (registerCallback CALLBACK_RAW_FRAME_UNPROCESSED (Some 1%nat)
              sample_camera).2 in
  (_callBackTypesRegistered c = subscription_bit CALLBACK_RAW_FRAME_UNPROCESSED ∧
   events (world_of (_captureLoop_body drv c w)) =
     events w ++
       [Called_captureRawUnprocessedFrame;
        Invoked 1 "camera0" (FrameRaw f) CALLBACK_RAW_FRAME_UNPROCESSED;
        Called_processRawFrame]) ∧
  (_callBackTypesRegistered sample_camera = 0 ∧
   _callback sample_camera = [None; None; None; None] ∧
   _captureLoop_body drv sample_camera w =
     Stopped bad_function_call (emitted w Called_captureRawUnprocessedFrame)).
Proof.
  intros drv c. split; [split; [reflexivity|]|by split_and!].
  subst drv c. lazy -[app].
  destruct (process f); lazy -[app]; by rewrite <- !app_assoc.
Qed.

End Iteration.

(** ** The statements at the sample inputs *)



Lemma field_of_view_unavailable_no_point_cloud_witness :
  field_of_view_unavailable (sample_driver (false, 0%R)) ∧
  (∃ p' w',
     _convertToPointCloudFrame (sample_driver (false, 0%R))
       (Some sample_depth_frame) (Some 1%positive) sample_world
       = Normal (false, p') w') ∧
  (∃ new,
     events (world_of (_captureLoop_body (sample_driver (false, 0%R))
                         (registerCallback CALLBACK_XYZI_POINT_CLOUD_FRAME
                            (Some 1%nat) sample_camera).2 sample_world))
       = events sample_world ++ new ∧
     ∀ e, e ∈ new → ¬ delivers_point_cloud e).
Proof.
  assert (field_of_view_unavailable (sample_driver (false, 0%R))) as Hfov
    by (left; reflexivity).
  destruct (field_of_view_unavailable_no_point_cloud
              (sample_driver (false, 0%R)) Hfov) as [Hconv Hbody].
  split_and!; [exact Hfov|apply Hconv|apply Hbody].
Defined.

Lemma convertToPointCloudFrame_failure_mutates_output_witness :
  ∃ w' f,
    _convertToPointCloudFrame (sample_driver (true, 0%R))
      (Some sample_depth_frame) (Some 1%positive) sample_world
      = Normal (false, Some 1%positive) w' ∧
    heap w' = <[1%positive := XYZI f]> (heap sample_world) ∧
    id f = 42 ∧ timestamp f = 1000 ∧ length (points f) = 4%nat ∧
    XYZI f ≠ XYZI sample_old_frame.
Proof.
  destruct (convertToPointCloudFrame_failure_mutates_output
              (sample_driver (true, 0%R)) sample_depth_frame 1%positive
              sample_old_frame sample_world)
    as (w' & f & Hrun & Hheap & Hid & Hts & _ & Hlen).
  { apply lookup_singleton_eq. }
  { right. apply bool_decide_eq_true. reflexivity. }
  exists w', f. split_and!; [done|done|done|done|done|].
  intros Heq. injection Heq as ->. discriminate.
Defined.

(** * Further properties of the code *)

(** ** Parameters *)

Lemma insert_all_extends pre (m : gmap string ParameterPtr) :
  (∀ q, q ∈ pre → m !! name q = None) → m ⊆ insert_all pre m.
Proof.
  intros Hfresh. apply map_subseteq_spec. intros k v Hk.
  destruct (decide (k ∈ name <$> pre)) as [Hmem|Hmem].
  - apply list_elem_of_fmap in Hmem as (q & -> & Hq).
    rewrite (Hfresh q Hq) in Hk. discriminate.
  - by rewrite insert_all_lookup_other.
Qed.

(** X1: [_addParameters] succeeds exactly when the names of the batch are
    pairwise distinct and none of them is in the map; every element of the
    batch can then be looked up under its name and every other key is as
    before. *)
Theorem addParameters_success_iff params (m : gmap string ParameterPtr) :
  ((_addParameters params m).1 = true ↔
   NoDup (name <$> params) ∧ ∀ q, q ∈ params → m !! name q = None) ∧
  ((_addParameters params m).1 = true →
   (∀ q, q ∈ params → (_addParameters params m).2 !! name q = Some q) ∧
   (∀ k, k ∉ name <$> params →
      (_addParameters params m).2 !! k = m !! k)).
Proof.
  pose proof (_addParameters_outcome params m) as Hout.
  destruct (_addParameters params m) as [[] m']; cbn [fst snd].
  - destruct Hout as (-> & Hnd & Hfresh). split; [done|]. intros _. split.
    + intros q Hq. by apply insert_all_lookup_member.
    + intros k Hk. by apply insert_all_lookup_other.
  - split; [|discriminate]. split; [discriminate|].
    intros [Hnd Hfresh]. exfalso.
    destruct Hout as (pre & p & post & -> & _ & _ & _ & [v Hv]).
    rewrite fmap_app, fmap_cons in Hnd.
    apply NoDup_app in Hnd as (_ & Hdisj & _).
    rewrite insert_all_lookup_other in Hv.
    + rewrite Hfresh in Hv; [discriminate|].
      apply elem_of_app. right. apply elem_of_cons. by left.
    + intros Hpre. apply (Hdisj _ Hpre). apply elem_of_cons. by left.
Qed.

(** X2: whatever the batch and whatever the outcome, [_addParameters] never
    removes or overwrites an entry of the map. *)
Theorem addParameters_never_overwrites params (m : gmap string ParameterPtr) :
  m ⊆ (_addParameters params m).2.
Proof.
  pose proof (_addParameters_outcome params m) as Hout.
  destruct (_addParameters params m) as [[] m']; cbn [snd].
  - destruct Hout as (-> & _ & Hfresh). by apply insert_all_extends.
  - destruct Hout as (pre & p & post & _ & -> & _ & Hfresh & _).
    by apply insert_all_extends.
Qed.

(** ** The callback table *)

Lemma uint32_lor_absorb m b :
  uint32 (Z.lor (uint32 (Z.lor m b)) b) = uint32 (Z.lor m b).
Proof.
  apply Z.bits_inj'. intros n Hn. unfold uint32.
  destruct (Z.lt_ge_cases n 32) as [Hlow|Hhigh].
  - rewrite !Z.mod_pow2_bits_low, !Z.lor_spec, Z.mod_pow2_bits_low by lia.
    rewrite Z.lor_spec. by destruct (Z.testbit m n), (Z.testbit b n).
  - by rewrite !Z.mod_pow2_bits_high by lia.
Qed.

(** The mask after a registration: the stage's bit is added, the bits of the
    other stages stay. *)
Lemma registerCallback_mask_bit t f c t' :
  is_stage t → is_stage t' →
  Z.testbit (_callBackTypesRegistered (registerCallback t f c).2) (enum_value t')
  = Z.testbit (_callBackTypesRegistered c) (enum_value t') || bool_decide (t' = t).
Proof.
  intros Ht Ht'. rewrite registerCallback_stage by done.
  cbn [snd _callBackTypesRegistered set_callback set_callBackTypesRegistered].
  rewrite uint32_testbit, Z.lor_spec
    by (destruct t'; unfold is_stage in Ht'; cbn in *; lia).
  unfold subscription_bit. rewrite Z.shiftl_1_l, Z.pow2_bits_eqb
    by (destruct t; cbn; lia).
  f_equal. by destruct t, t'.
Qed.

(** X3: a registration for a stage succeeds; afterwards the stage's slot holds
    the function object given and its bit is in the mask, while the slots and
    bits of the other stages and the rest of the session are as before. *)
Theorem registerCallback_sets_slot_and_bit t f c :
  is_stage t → length (_callback c) = 4%nat →
  (registerCallback t f c).1 = true ∧
  _callback (registerCallback t f c).2 !! Z.to_nat (enum_value t) = Some f ∧
  Z.testbit (_callBackTypesRegistered (registerCallback t f c).2)
    (enum_value t) = true ∧
  (∀ t', is_stage t' → t' ≠ t →
     _callback (registerCallback t f c).2 !! Z.to_nat (enum_value t')
       = _callback c !! Z.to_nat (enum_value t') ∧
     Z.testbit (_callBackTypesRegistered (registerCallback t f c).2)
       (enum_value t')
       = Z.testbit (_callBackTypesRegistered c) (enum_value t')) ∧
  length (_callback (registerCallback t f c).2) = 4%nat ∧
  _parameters (registerCallback t f c).2 = _parameters c ∧
  _running (registerCallback t f c).2 = _running c ∧
  _captureThread (registerCallback t f c).2 = _captureThread c.
Proof.
  intros Ht Hlen. split_and!.
  - by rewrite registerCallback_stage.
  - rewrite registerCallback_stage by done. cbn [snd _callback set_callback].
    apply list_lookup_insert_eq. rewrite Hlen.
    destruct t; unfold is_stage in Ht; cbn in *; lia.
  - rewrite registerCallback_mask_bit by done.
    rewrite bool_decide_eq_true_2 by done. apply orb_true_r.
  - intros t' Ht' Hne. split.
    + rewrite registerCallback_stage by done. cbn [snd _callback set_callback].
      apply list_lookup_insert_ne. by destruct t, t'.
    + rewrite registerCallback_mask_bit by done.
      rewrite bool_decide_eq_false_2 by done. apply orb_false_r.
  - rewrite registerCallback_stage by done. cbn [snd _callback set_callback].
    by rewrite length_insert.
  - by rewrite registerCallback_stage.
  - by rewrite registerCallback_stage.
  - by rewrite registerCallback_stage.
Qed.

Lemma registerCallback_sets_slot_and_bit_witness :
  _callback (registerCallback CALLBACK_DEPTH_FRAME (Some 5%nat) sample_camera).2
    !! 2%nat = Some (Some 5%nat) ∧
  _callBackTypesRegistered
    (registerCallback CALLBACK_DEPTH_FRAME (Some 5%nat) sample_camera).2 = 4.
Proof.
  destruct (registerCallback_sets_slot_and_bit CALLBACK_DEPTH_FRAME
              (Some 5%nat) sample_camera)
    as (_ & Hslot & _); [unfold is_stage; cbn; lia|reflexivity|].
  split; [exact Hslot|reflexivity].
Defined.

(** X4: the last writer wins.  Registering twice for the same identifier gives
    the same session as the second registration alone: the slot holds the
    second function object and the mask has not grown. *)
Theorem registerCallback_last_writer_wins t f1 f2 c :
  registerCallback t f2 (registerCallback t f1 c).2 = registerCallback t f2 c.
Proof.
  unfold registerCallback. destruct (enum_value t <? _); [|done].
  cbn [snd _callback _callBackTypesRegistered set_callback
       set_callBackTypesRegistered _id _parameters _running _threadActive
       _captureThread _programmer _streamer].
  unfold set_callback, set_callBackTypesRegistered; cbn.
  by rewrite list_insert_insert_eq, uint32_lor_absorb.
Qed.




(** X6: [registerCallback] does not look at the function object.  Given an
    empty one it still succeeds and sets the stage's bit, leaving a session in
    which the bit is set and the slot is empty. *)
Theorem registerCallback_empty_function t c :
  is_stage t → length (_callback c) = 4%nat →
  (registerCallback t None c).1 = true ∧
  Z.testbit (_callBackTypesRegistered (registerCallback t None c).2)
    (enum_value t) = true ∧
  _callback (registerCallback t None c).2 !! Z.to_nat (enum_value t) = Some None ∧
  ¬ table_invariant (registerCallback t None c).2.
Proof.
  intros Ht Hlen.
  assert (Z.testbit (_callBackTypesRegistered (registerCallback t None c).2)
            (enum_value t) = true) as Hbit.
  { rewrite registerCallback_mask_bit by done.
    rewrite bool_decide_eq_true_2 by done. apply orb_true_r. }
  assert (_callback (registerCallback t None c).2 !! Z.to_nat (enum_value t)
          = Some None) as Hslot.
  { rewrite registerCallback_stage by done. cbn [snd _callback set_callback].
    apply list_lookup_insert_eq. rewrite Hlen.
    destruct t; unfold is_stage in Ht; cbn in *; lia. }
  split_and!; [by rewrite registerCallback_stage|done|done|].
  intros Hinv. destruct (proj1 (Hinv t Ht) Hbit) as [g Hg].
  rewrite Hslot in Hg. discriminate.
Qed.

Lemma registerCallback_empty_function_witness :
  ¬ table_invariant
      (registerCallback CALLBACK_RAW_FRAME_PROCESSED None sample_camera).2.
Proof.
  apply (registerCallback_empty_function CALLBACK_RAW_FRAME_PROCESSED
           sample_camera); [unfold is_stage; cbn; lia|reflexivity].
Defined.

(** X8: what a call of [_callbackAndContinue] for a stage does, in full.  The
    stage's callback is called, with the session's identity, the frame and the
    stage, exactly when the inclusive or of the mask and the stage's number is
    not zero and the stage's slot holds a callable; nothing else is called.
    The new mask is the old one without the bits of the stage's number, so it
    never gains a bit, and the result tells whether it is non-zero. *)
Theorem callbackAndContinue_full_outcome {F} c m t (frame : Frame F) (w : World F) :
  is_stage t → length (_callback c) = 4%nat →
  ∃ m',
    m' = Z.land m (uint32 (Z.lnot (enum_value t))) ∧
    (∀ n, Z.testbit m' n = true → Z.testbit m n = true) ∧
    (∀ g, Z.lor m (enum_value t) ≠ 0 →
          _callback c !! Z.to_nat (enum_value t) = Some (Some g) →
          _callbackAndContinue c m t frame w =
            Normal (negb (m' =? 0), m')
              (emitted w (Invoked g (_id c) frame t))) ∧
    (Z.lor m (enum_value t) = 0 ∨
     _callback c !! Z.to_nat (enum_value t) = Some None →
     _callbackAndContinue c m t frame w = Normal (negb (m' =? 0), m') w).
Proof.
  intros Ht Hlen. eexists. split; [reflexivity|]. split_and!.
  - intros n. rewrite Z.land_spec. by intros [? _]%andb_true_iff.
  - intros g Hor Hslot. rewrite _callbackAndContinue_outcome by done.
    cbn zeta. rewrite (proj2 (Z.eqb_neq _ _) Hor), Hslot. done.
  - intros Hnot. rewrite _callbackAndContinue_outcome by done. cbn zeta.
    destruct Hnot as [-> | ->]; [done|].
    by destruct (Z.lor m (enum_value t) =? 0).
Qed.

Lemma callbackAndContinue_full_outcome_witness :
  ∃ m', m' = 12 ∧
    _callbackAndContinue
      (registerCallback CALLBACK_DEPTH_FRAME (Some 5%nat) sample_camera).2
      12 CALLBACK_RAW_FRAME_PROCESSED
      (FrameProcessed {| proc_id := 1; proc_timestamp := 2; proc_data := [] |})
      sample_world
    = Normal (true, m') sample_world.
Proof.
  destruct (callbackAndContinue_full_outcome
              (registerCallback CALLBACK_DEPTH_FRAME (Some 5%nat) sample_camera).2
              12 CALLBACK_RAW_FRAME_PROCESSED
              (FrameProcessed {| proc_id := 1; proc_timestamp := 2;
                                 proc_data := [] |})
              sample_world)
    as (m' & -> & _ & _ & Hsilent); [unfold is_stage; cbn; lia|reflexivity|].
  eexists. split; [reflexivity|]. apply Hsilent. by right.
Defined.

(** ** One iteration: which callbacks, which operations, in which order *)

Section IterationMore.
Context {F : Type} `{!Floating F}.
Implicit Types (w : World F) (drv : Driver F) (P : Event F → Prop)
  (c : DepthCamera).

Lemma appends_slot_value P c t :
  appends P (λ f, _callback c !! Z.to_nat (enum_value t) = Some f)
    (slot c t : Step F _).
Proof.
  unfold slot. destruct (_callback c !! Z.to_nat (enum_value t)) eqn:Hs;
    [by apply appends_ret|apply appends_fail].
Qed.

Lemma appends_invoke_registered P c t (frame : Frame F) :
  (∀ g, _callback c !! Z.to_nat (enum_value t) = Some (Some g) →
        P (Invoked g (_id c) frame t)) →
  appends P (λ _, True) (invoke c t frame).
Proof.
  intros HP. apply (appends_bind _ _ _ _ _ (appends_slot_value P c t)).
  intros [g|] Hs; [apply appends_emit; by apply HP|apply appends_fail].
Qed.

(** The call appends at most the stage's callback, and its value is the
    consumed mask with the flag telling whether it is non-zero. *)
Lemma appends_callbackAndContinue_value P c m t (frame : Frame F) :
  (∀ g, _callback c !! Z.to_nat (enum_value t) = Some (Some g) →
        P (Invoked g (_id c) frame t)) →
  appends P
    (λ r, r = (negb (Z.land m (uint32 (Z.lnot (enum_value t))) =? 0),
               Z.land m (uint32 (Z.lnot (enum_value t)))))
    (_callbackAndContinue c m t frame).
Proof.
  intros HP. unfold _callbackAndContinue.
  eapply appends_bind; [|intros; by apply appends_ret].
  destruct (negb _); [|by apply (appends_ret P (λ _, True))].
  apply (appends_bind _ _ _ _ _ (appends_slot P c t)).
  intros f _. destruct (function_as_condition f);
    [by apply appends_invoke_registered|by apply appends_ret].
Qed.

(** X10: every callback call of an iteration is proper: it is the callable
    registered in the slot of its stage, and it is given the session's
    identity, the stage and a frame of that stage (the raw frame for the raw
    stage, the depth frame for the depth stage, and so on).  This holds for
    any session, driver and world, on the fast path and the full path. *)
Theorem captureLoop_body_calls_registered_callbacks drv c w :
  ∃ new,
    events (world_of (_captureLoop_body drv c w)) = events w ++ new ∧
    ∀ e, e ∈ new → proper_delivery c e.
Proof.
  cut (appends (proper_delivery c) (λ _, True) (_captureLoop_body drv c)).
  { intros Hbody. destruct (Hbody w) as (new & Hev & Hnew & _).
    exists new. split; [done|]. by apply Forall_forall. }
  unfold _captureLoop_body. destruct (_ || _).
  - eapply appends_bind;
      [by apply appends_call_captureRawUnprocessedFrame|].
    intros [f|] _; [|by apply appends_ret].
    cbn [array_as_condition]. apply appends_invoke_registered. by intros g Hg.
  - eapply appends_bind;
      [by apply appends_or_continue, appends_call_captureRawUnprocessedFrame|].
    intros f1 _.
    eapply appends_bind;
      [apply appends_callbackAndContinue_value; by intros g Hg|].
    intros [more1 todo1] _.
    eapply appends_bind; [apply appends_continue_unless|]. intros _ _.
    eapply appends_bind;
      [by apply appends_or_continue, appends_call_processRawFrame|].
    intros f _.
    eapply appends_bind;
      [apply appends_callbackAndContinue_value; by intros g Hg|].
    intros [more2 todo2] _.
    eapply appends_bind; [apply appends_continue_unless|]. intros _ _.
    eapply appends_bind;
      [by apply appends_or_continue, appends_call_convertToDepthFrame|].
    intros d _.
    eapply appends_bind;
      [apply appends_callbackAndContinue_value; by intros g Hg|].
    intros [more3 todo3] _.
    eapply appends_bind; [apply appends_continue_unless|]. intros _ _.
    eapply appends_bind; [apply appends_pool_get|]. intros p _.
    eapply appends_bind; [by apply appends_convertToPointCloudFrame|].
    intros [ok p'] _.
    eapply appends_bind; [apply appends_pool_put|]. intros _ _.
    eapply appends_bind; [apply appends_continue_unless|]. intros _ _.
    eapply appends_bind; [apply appends_load|]. intros pc _.
    eapply appends_bind;
      [apply appends_callbackAndContinue_value; by intros g Hg|].
    intros _ _. by apply appends_ret.
Qed.

Lemma external_calls_app (l1 l2 : list (Event F)) :
  external_calls (l1 ++ l2) = external_calls l1 ++ external_calls l2.
Proof. apply omap_app. Qed.

Lemma phased_bind {A B} a mid b hi (m : Step F A) (k : A → Step F B) :
  (b ≤ hi)%nat →
  phased a mid b m → (∀ x, phased b b hi (k x)) → phased a mid hi (m ≫= k).
Proof.
  intros Hb Hm Hk w. destruct (Hm w) as (new1 & k1 & Hev1 & Hc1 & Hr1 & Hn1).
  unfold mbind, Step_bind. destruct (m w) as [x w1|w1|e w1]; cbn in *.
  - destruct (Hk x w1) as (new2 & k2 & Hev2 & Hc2 & Hr2 & Hn2).
    exists (new1 ++ new2), (k1 + k2)%nat.
    rewrite Hev2, Hev1, app_assoc, external_calls_app, Hc1, Hc2.
    split_and!; [done| |lia|lia|].
    + rewrite seq_app. by rewrite Hn1.
    + destruct (k x w1); [lia|done|done].
  - exists new1, k1. split_and!; [done|done|lia|lia|done].
  - exists new1, k1. split_and!; [done|done|lia|lia|done].
Qed.

(** A statement that appends nothing stays where it is. *)
Lemma phased_silent {A} n hi (m : Step F A) :
  (n ≤ hi)%nat →
  (∀ w, events (world_of (m w)) = events w) →
  (∀ w a w', m w = Normal a w' → n = hi) →
  phased n n hi m.
Proof.
  intros Hn Hev Hnorm w. exists [], 0%nat.
  rewrite Hev, app_nil_r, Nat.add_0_r. split_and!; [done|done|lia|lia|].
  destruct (m w) eqn:Hrun; [|done..]. by eapply Hnorm.
Qed.

Lemma phased_ret {A} n (a : A) : phased n n n (mret a : Step F A).
Proof. by apply phased_silent. Qed.

Lemma phased_continue {A} n hi : (n ≤ hi)%nat → phased n n hi (continue : Step F A).
Proof. intros Hn. by apply phased_silent. Qed.

Lemma phased_fail {A} n hi e : (n ≤ hi)%nat → phased n n hi (fail e : Step F A).
Proof. intros Hn. by apply phased_silent. Qed.

Lemma phased_emit_call n (e : Event F) :
  call_stage e = Some n → phased n (S n) (S n) (emit e).
Proof.
  intros He w. exists [e], 1%nat. cbn. rewrite He. cbn.
  split_and!; [done|done|lia|lia|lia].
Qed.

Lemma phased_emit_callback n (e : Event F) :
  call_stage e = None → phased n n n (emit e).
Proof.
  intros He w. exists [e], 0%nat. cbn. rewrite He. cbn.
  split_and!; [done|done|lia|lia|lia].
Qed.

Lemma phased_slot n c t : phased n n n (slot c t : Step F _).
Proof.
  unfold slot. destruct (_callback c !! _); [apply phased_ret|by apply phased_fail].
Qed.

Lemma phased_invoke n c t (frame : Frame F) : phased n n n (invoke c t frame).
Proof.
  eapply phased_bind; [done|apply phased_slot|].
  intros [g|]; [by apply phased_emit_callback|by apply phased_fail].
Qed.

Lemma phased_callbackAndContinue n c m t (frame : Frame F) :
  phased n n n (_callbackAndContinue c m t frame).
Proof.
  unfold _callbackAndContinue.
  eapply phased_bind; [done| |intros; apply phased_ret].
  destruct (negb _); [|apply phased_ret].
  eapply phased_bind; [done|apply phased_slot|].
  intros f. destruct (function_as_condition f);
    [apply phased_invoke|apply phased_ret].
Qed.

Lemma phased_continue_unless n ok : phased n n n (continue_unless ok : Step F _).
Proof. destruct ok; [apply phased_ret|by apply phased_continue]. Qed.

Lemma phased_or_continue {A} lo mid hi (m : Step F (option A)) :
  phased lo mid hi m → phased lo mid hi (or_continue m).
Proof.
  intros Hm. eapply phased_bind; [done|exact Hm|].
  intros [a|]; [apply phased_ret|by apply phased_continue].
Qed.

Lemma phased_call n (e : Event F) {A} (a : A) :
  call_stage e = Some n →
  phased n (S n) (S n) (_ ← emit e; mret a : Step F A).
Proof.
  intros He. eapply phased_bind; [done|by apply phased_emit_call|].
  intros _. apply phased_ret.
Qed.

Lemma phased_relax {A} lo mid mid' hi (m : Step F A) :
  (mid' ≤ mid)%nat → phased lo mid hi m → phased lo mid' hi m.
Proof.
  intros Hmid Hm w. destruct (Hm w) as (new & k & Hev & Hc & Hr & Hn).
  exists new, k. split_and!; [done|done|lia|lia|done].
Qed.

Lemma phased_convertToPointCloudFrame drv (d : DepthFrame F) p :
  phased 3 3 5 (_convertToPointCloudFrame drv (Some d) p).
Proof.
  unfold _convertToPointCloudFrame.
  eapply (phased_bind 3 3 4 5);
    [lia|apply (phased_relax 3 4 3 4); [lia|by apply phased_emit_call]|].
  intros _. cbn beta iota.
  eapply (phased_bind 4 4 4 5); [lia| |].
  { apply phased_silent; [done| |done]. intros w.
    by destruct (cast_or_new_outcome p w) as (l & f0 & σ & ->). }
  intros [l f].
  eapply (phased_bind 4 4 4 5); [lia|by apply phased_silent|]. intros _.
  eapply (phased_bind 4 4 5 5);
    [lia|apply (phased_relax 4 5 4 5); [lia|by apply phased_call]|].
  intros [ok thetaMax]. destruct (negb ok || _); [apply phased_ret|].
  destruct (pixel_loops _ _ _ _ _); [|by apply phased_fail].
  eapply phased_bind; [done|by apply phased_silent|]. intros _. apply phased_ret.
Qed.

(** Either path of the body goes through the stages in order, the raw
    capture first. *)
Lemma captureLoop_body_phased drv c :
  phased 0 1 1 (_captureLoop_body drv c) ∨ phased 0 1 5 (_captureLoop_body drv c).
Proof.
  unfold _captureLoop_body. destruct (_ || _); [left|right].
  - eapply (phased_bind 0 1 1 1); [done|by apply phased_call|].
    intros [f|]; [|apply phased_ret].
    cbn [array_as_condition]. apply phased_invoke.
  - eapply (phased_bind 0 1 1 5);
      [lia|by apply phased_or_continue, phased_call|]. intros f1.
    eapply (phased_bind 1 1 1 5); [lia|apply phased_callbackAndContinue|].
    intros [more1 todo1].
    eapply (phased_bind 1 1 1 5); [lia|apply phased_continue_unless|]. intros _.
    eapply (phased_bind 1 1 2 5);
      [lia|apply (phased_relax 1 2 1 2); [lia|by apply phased_or_continue, phased_call]|].
    intros f.
    eapply (phased_bind 2 2 2 5); [lia|apply phased_callbackAndContinue|].
    intros [more2 todo2].
    eapply (phased_bind 2 2 2 5); [lia|apply phased_continue_unless|]. intros _.
    eapply (phased_bind 2 2 3 5);
      [lia|apply (phased_relax 2 3 2 3); [lia|by apply phased_or_continue, phased_call]|].
    intros d.
    eapply (phased_bind 3 3 3 5); [lia|apply phased_callbackAndContinue|].
    intros [more3 todo3].
    eapply (phased_bind 3 3 3 5); [lia|apply phased_continue_unless|]. intros _.
    eapply (phased_bind 3 3 3 5); [lia|by apply phased_silent|]. intros p.
    eapply (phased_bind 3 3 5 5); [lia|apply phased_convertToPointCloudFrame|].
    intros [ok p'].
    eapply (phased_bind 5 5 5 5); [lia|by apply phased_silent|]. intros _.
    eapply (phased_bind 5 5 5 5); [lia|apply phased_continue_unless|]. intros _.
    eapply (phased_bind 5 5 5 5); [lia| |].
    { apply phased_silent; [done| |done]. intros w0. unfold load.
      by destruct (p' ≫= _). }
    intros pc.
    eapply (phased_bind 5 5 5 5); [lia|apply phased_callbackAndContinue|].
    intros _. apply phased_ret.
Qed.

(** X11: the external operations of one iteration.  Whatever the session, the
    driver and the world, an iteration calls the raw capture, and what it
    calls is an initial part of: raw capture, raw processing, depth
    conversion, point-cloud conversion, field-of-view query, each once and in
    this order. *)
Theorem captureLoop_body_stage_order drv c w :
  ∃ new k,
    events (world_of (_captureLoop_body drv c w)) = events w ++ new ∧
    external_calls new = seq 0 k ∧ (1 ≤ k ≤ 5)%nat.
Proof.
  destruct (captureLoop_body_phased drv c) as [Hbody|Hbody];
    destruct (Hbody w) as (new & k & Hev & Hc & Hr & _);
    exists new, k; (split_and!; [done|done|lia|lia]).
Qed.

Ltac raw_stages_step :=
  first
    [ eapply appends_bind;
        [ apply appends_or_continue;
          first [ apply appends_call_captureRawUnprocessedFrame
                | apply appends_call_processRawFrame
                | apply appends_call_convertToDepthFrame ];
          split; discriminate
        | intros ? _ ]
    | eapply appends_bind;
        [ apply appends_callbackAndContinue_value; intros; split; discriminate
        | intros [? ?] Hvalue; injection Hvalue as -> -> ]
    | eapply appends_bind;
        [ apply appends_continue_unless
        | intros ? Hmore; vm_compute in Hmore;
          first [ discriminate | clear Hmore ] ] ].

(** X12: a session subscribed to raw stages only never pays for the point
    cloud.  When the mask is not zero and holds no bit above those of the two
    raw stages, an iteration calls neither the point-cloud conversion nor the
    field-of-view query, whatever the driver answers. *)
Theorem captureLoop_body_raw_stages_skip_point_cloud drv c w :
  0 < _callBackTypesRegistered c < 4 →
  ∃ new,
    events (world_of (_captureLoop_body drv c w)) = events w ++ new ∧
    ∀ e, e ∈ new →
      e ≠ Called_convertToPointCloudFrame ∧ e ≠ Called_getFieldOfView.
Proof.
  intros Hmask.
  cut (appends
         (λ e : Event F,
            e ≠ Called_convertToPointCloudFrame ∧ e ≠ Called_getFieldOfView)
         (λ _, True) (_captureLoop_body drv c)).
  { intros Hbody. destruct (Hbody w) as (new & Hev & Hnew & _).
    exists new. split; [done|]. by apply Forall_forall. }
  unfold _captureLoop_body.
  assert (_callBackTypesRegistered c = 1 ∨ _callBackTypesRegistered c = 2
          ∨ _callBackTypesRegistered c = 3) as [-> | [-> | ->]] by lia;
    cbn [Z.eqb Pos.eqb orb enum_value]; repeat raw_stages_step.
Qed.

(** X13: when the raw capture fails, the iteration ends there: it has called
    the raw capture and nothing else, no callback and no other operation, and
    the thread goes on. *)
Theorem captureLoop_body_capture_failure drv c w :
  _captureRawUnprocessedFrame drv = None →
  world_of (_captureLoop_body drv c w)
    = emitted w Called_captureRawUnprocessedFrame ∧
  ∀ e w', _captureLoop_body drv c w ≠ Stopped e w'.
Proof.
  intros Hcap.
  unfold _captureLoop_body, or_continue, call_captureRawUnprocessedFrame, emit,
    mbind, Step_bind, mret, Step_ret.
  rewrite Hcap. by destruct (_ || _).
Qed.

End IterationMore.

Lemma captureLoop_body_raw_stages_skip_point_cloud_witness :
  ∃ new,
    events (world_of
              (_captureLoop_body (sample_driver (true, 1%R))
                 (registerCallback CALLBACK_RAW_FRAME_PROCESSED (Some 5%nat)
                    sample_camera).2 sample_world))
      = events sample_world ++ new ∧
    ∀ e, e ∈ new →
      e ≠ Called_convertToPointCloudFrame ∧ e ≠ Called_getFieldOfView.
Proof.
  apply (captureLoop_body_raw_stages_skip_point_cloud
           (sample_driver (true, 1%R))
           (registerCallback CALLBACK_RAW_FRAME_PROCESSED (Some 5%nat)
              sample_camera).2 sample_world).
  vm_compute. split; reflexivity.
Defined.

Lemma captureLoop_body_capture_failure_witness :
  world_of (_captureLoop_body sample_driver_without_frames sample_camera
              sample_world)
    = emitted sample_world Called_captureRawUnprocessedFrame.
Proof.
  exact (proj1 (captureLoop_body_capture_failure sample_driver_without_frames
                  sample_camera sample_world eq_refl)).
Defined.

(** ** The full path, end to end *)


Section EndToEnd.
Context {F : Type} `{!Floating F}.
Implicit Types (w : World F) (drv : Driver F) (c : DepthCamera).









End EndToEnd.


(** ** More on the conversion *)

Section ConversionMore.
Context {F : Type} `{!Floating F}.
Implicit Types (w : World F) (d : DepthFrame F) (drv : Driver F)
  (pts : list (IntensityPoint F)).







End ConversionMore.


(** ** The projection in exact arithmetic *)

Lemma int32_in_range z : - 2 ^ 31 ≤ z < 2 ^ 31 → int32 z = z.
Proof.
  intros Hz. unfold int32. rewrite Z.mod_small by lia. lia.
Qed.

(** For a pixel of a frame of at most 65535 by 65535 pixels no [int]
    operation of the projection overflows: the offsets from the centre and
    the sum of their squares are the exact integers. *)
Lemma pixel_offsets_exact (wd ht x y : nat) :
  Z.of_nat wd ≤ 65535 → Z.of_nat ht ≤ 65535 → (x < wd)%nat → (y < ht)%nat →
  int32 (Z.of_nat x - Z.of_nat wd / 2) = Z.of_nat x - Z.of_nat wd / 2 ∧
  int32 (Z.of_nat y - Z.of_nat ht / 2) = Z.of_nat y - Z.of_nat ht / 2 ∧
  int32 (int32 ((Z.of_nat x - Z.of_nat wd / 2) * (Z.of_nat x - Z.of_nat wd / 2))
         + int32 ((Z.of_nat y - Z.of_nat ht / 2)
                  * (Z.of_nat y - Z.of_nat ht / 2)))
  = (Z.of_nat x - Z.of_nat wd / 2) * (Z.of_nat x - Z.of_nat wd / 2)
    + (Z.of_nat y - Z.of_nat ht / 2) * (Z.of_nat y - Z.of_nat ht / 2).
Proof.
  intros Hwd Hht Hx Hy.
  set (x1 := Z.of_nat x - Z.of_nat wd / 2).
  set (y1 := Z.of_nat y - Z.of_nat ht / 2).
  assert (- 32767 ≤ x1 ≤ 32767) as Hx1
    by (subst x1; Z.div_mod_to_equations; lia).
  assert (- 32767 ≤ y1 ≤ 32767) as Hy1
    by (subst y1; Z.div_mod_to_equations; lia).
  assert (0 ≤ x1 * x1 ≤ 32767 * 32767) as Hxx by nia.
  assert (0 ≤ y1 * y1 ≤ 32767 * 32767) as Hyy by nia.
  rewrite (int32_in_range x1), (int32_in_range y1),
    (int32_in_range (x1 * x1)), (int32_in_range (y1 * y1)),
    (int32_in_range (x1 * x1 + y1 * y1)); lia.
Qed.

(** X17: in exact arithmetic, for a pixel off the centre column of a frame of
    at most 65535 by 65535 pixels and a focal length that is not zero (so that
    no [int] operation overflows and nothing is divided by zero), the point
    computed lies at the pixel's depth from the origin, x² + y² + z² = r²,
    and its intensity is the pixel's amplitude. *)
Theorem pixel_point_distance_is_depth (wd ht : nat) (focalLength : R)
    (x y : nat) (r a : R) :
  Z.of_nat wd ≤ 65535 → Z.of_nat ht ≤ 65535 → (x < wd)%nat → (y < ht)%nat →
  Z.of_nat x ≠ Z.of_nat wd / 2 → focalLength ≠ 0%R →
  (pt_x (pixel_point wd ht focalLength x y r a)
     * pt_x (pixel_point wd ht focalLength x y r a)
   + pt_y (pixel_point wd ht focalLength x y r a)
     * pt_y (pixel_point wd ht focalLength x y r a)
   + pt_z (pixel_point wd ht focalLength x y r a)
     * pt_z (pixel_point wd ht focalLength x y r a)
   = r * r)%R ∧
  pt_i (pixel_point wd ht focalLength x y r a) = a.
Proof.
  intros Hwd Hht Hx Hy Hcolumn Hfocal. split; [|reflexivity].
  destruct (pixel_offsets_exact wd ht x y Hwd Hht Hx Hy) as (Hx1 & Hy1 & Hsum).
  unfold pixel_point. rewrite Hx1, Hy1, Hsum.
  cbn [pt_x pt_y pt_z fmul fsin fcos fatan fdiv fsqrt fadd of_int fone fpi
       real_Floating].
  match goal with
  | |- context [cos (atan ?u)] => set (theta := atan u)
  end.
  match goal with
  | |- context [sin (if ?b then ?p1 else ?p2)] =>
      set (phi := if b then p1 else p2)
  end.
  pose proof (sin2_cos2 theta) as Htheta. pose proof (sin2_cos2 phi) as Hphi.
  unfold Rsqr in Htheta, Hphi.
  replace (r * sin theta * cos phi * (r * sin theta * cos phi)
           + r * sin theta * sin phi * (r * sin theta * sin phi)
           + r * cos theta * (r * cos theta))%R
    with (r * r * (sin theta * sin theta
                     * (sin phi * sin phi + cos phi * cos phi)
                   + cos theta * cos theta))%R by ring.
  rewrite Hphi, Rmult_1_r, Htheta. ring.
Qed.

Lemma pixel_point_distance_is_depth_witness :
  (pt_x (pixel_point 4 4 1%R 0 1 2%R 10%R)
     * pt_x (pixel_point 4 4 1%R 0 1 2%R 10%R)
   + pt_y (pixel_point 4 4 1%R 0 1 2%R 10%R)
     * pt_y (pixel_point 4 4 1%R 0 1 2%R 10%R)
   + pt_z (pixel_point 4 4 1%R 0 1 2%R 10%R)
     * pt_z (pixel_point 4 4 1%R 0 1 2%R 10%R)
   = 2 * 2)%R.
Proof.
  apply (pixel_point_distance_is_depth 4 4 1%R 0 1 2%R 10%R);
    [lia|lia|lia|lia|discriminate|lra].
Defined.

(** X18: in exact arithmetic, for a frame of at most 65535 by 65535 pixels and
    a focal length that is not zero, a pixel of positive depth is placed in
    front of the camera: the z coordinate of its point is [r * cos theta] with
    [theta] strictly between -π/2 and π/2, hence positive. *)
Theorem pixel_point_in_front (wd ht : nat) (focalLength : R) (x y : nat)
    (r a : R) :
  Z.of_nat wd ≤ 65535 → Z.of_nat ht ≤ 65535 → (x < wd)%nat → (y < ht)%nat →
  focalLength ≠ 0%R → (0 < r)%R →
  (0 < pt_z (pixel_point wd ht focalLength x y r a))%R.
Proof.
  intros Hwd Hht Hx Hy Hfocal Hr.
  destruct (pixel_offsets_exact wd ht x y Hwd Hht Hx Hy) as (Hx1 & Hy1 & Hsum).
  unfold pixel_point. rewrite Hx1, Hy1, Hsum.
  cbn [pt_z fmul fcos fatan fdiv fsqrt of_int real_Floating].
  apply Rmult_lt_0_compat; [done|].
  match goal with
  | |- context [cos (atan ?u)] => destruct (atan_bound u) as [Hlo Hhi]
  end.
  apply cos_gt_0; lra.
Qed.

Lemma pixel_point_in_front_witness :
  (0 < pt_z (pixel_point 2 2 1%R 0 1 1%R 10%R))%R.
Proof. apply pixel_point_in_front; [lia|lia|lia|lia|lra|lra]. Defined.

(** ** Session control, continued *)

(** X19: whenever [reset] is defined it stops the capture and touches nothing
    but [_running] and the two devices.  After a successful reset any further
    [reset] goes through the null programmer.  After a failed reset the
    programmer is still there and [reset] can be tried again: the retry does
    what the same call would have done on the session before, so it succeeds
    when the programmer's reset then succeeds. *)
Theorem reset_stops_and_retries programmer_reset c ok c' :
  reset programmer_reset c = Some (ok, c') →
  ok = programmer_reset ∧
  _running c' = false ∧
  _callback c' = _callback c ∧
  _callBackTypesRegistered c' = _callBackTypesRegistered c ∧
  _parameters c' = _parameters c ∧
  _captureThread c' = _captureThread c ∧
  _threadActive c' = _threadActive c ∧
  (ok = true → ∀ again, reset again c' = None) ∧
  (ok = false →
   (∀ again, reset again c' = reset again c) ∧
   ∃ c'', reset true c' = Some (true, c'') ∧
          _programmer c'' = None ∧ _streamer c'' = None).
Proof.
  unfold reset; cbn. destruct (_programmer c) as [p|] eqn:Hp; [|discriminate].
  destruct programmer_reset; cbn;
    intros Hrun; injection Hrun as <- <-; cbn;
    (split_and!; [done..| |]); try discriminate.
  - done.
  - intros _. rewrite Hp. split; [done|]. by eexists.
Qed.

Lemma reset_stops_and_retries_witness :
  ∃ c', reset false sample_camera = Some (false, c') ∧
        _running c' = false ∧
        ∃ c'', reset true c' = Some (true, c'') ∧ _programmer c'' = None.
Proof.
  eexists. split; [reflexivity|].
  destruct (reset_stops_and_retries false sample_camera false _ eq_refl)
    as (_ & Hrun & _ & _ & _ & _ & _ & _ & Hretry).
  split; [exact Hrun|].
  destruct (proj2 (Hretry eq_refl)) as (c'' & Hagain & Hnull & _).
  by exists c''.
Defined.

(** X20: [start] and [wait].  [start] succeeds exactly when the driver's start
    does, and a failed [start] changes nothing.  [wait] joins only once the
    capture thread has marked itself active: on a session whose thread is not
    marked active, [wait] right after a successful [start] returns at once,
    and [wait] after the thread's first statement joins the launched
    thread. *)
Theorem start_then_wait driver_start c :
  _threadActive c = false →
  (start driver_start c).1 = driver_start ∧
  (driver_start = false → (start driver_start c).2 = c) ∧
  wait (start driver_start c).2 = returns_at_once ∧
  (driver_start = true →
   _running (start driver_start c).2 = true ∧
   wait (_captureThreadWrapper_entry (start driver_start c).2)
     = joins ThreadRunning_captureThreadWrapper).
Proof.
  intros Hidle. rewrite start_outcome. destruct driver_start; cbn.
  - split_and!; [done|discriminate| |done].
    unfold wait; cbn. by rewrite Hidle.
  - split_and!; [done|done| |discriminate].
    unfold wait. by rewrite Hidle.
Qed.

Lemma start_then_wait_witness :
  wait (start true sample_camera).2 = returns_at_once ∧
  wait (_captureThreadWrapper_entry (start true sample_camera).2)
    = joins ThreadRunning_captureThreadWrapper.
Proof.
  destruct (start_then_wait true sample_camera eq_refl)
    as (_ & _ & Hwait & Hjoin).
  split; [exact Hwait|exact (proj2 (Hjoin eq_refl))].
Defined.

(** ** The thread function *)

Section ThreadRuns.
Context {F : Type} `{!Floating F}.
Implicit Types (w : World F) (c : DepthCamera).

Lemma captures_app (l1 l2 : list (Event F)) :
  captures (l1 ++ l2) = (captures l1 + captures l2)%nat.
Proof.
  unfold captures. by rewrite external_calls_app, filter_app, length_app.
Qed.

Lemma no_capture_after_first lo k :
  (0 < lo)%nat → filter (λ n, n = 0%nat) (seq lo k) = [].
Proof.
  revert lo. induction k as [|k IH]; intros lo Hlo; [done|].
  cbn [seq]. rewrite filter_cons_False by lia. apply IH. lia.
Qed.

Lemma captures_of_stages k (l : list (Event F)) :
  external_calls l = seq 0 k → (1 ≤ k)%nat → captures l = 1%nat.
Proof.
  intros Hcalls Hk. unfold captures. rewrite Hcalls.
  destruct k as [|k]; [lia|]. cbn [seq].
  rewrite filter_cons_True by done. cbn [length].
  by rewrite no_capture_after_first by lia.
Qed.

Lemma captureLoop_body_captures_once drv c w :
  ∃ new,
    events (world_of (_captureLoop_body drv c w)) = events w ++ new ∧
    captures new = 1%nat.
Proof.
  destruct (captureLoop_body_phased drv c) as [Hbody|Hbody];
    destruct (Hbody w) as (new & k & Hev & Hc & Hr & _);
    exists new; (split; [done|]); apply (captures_of_stages k); [done|lia|done|lia].
Qed.

(** X21: the loop, in a run in which [_running] is read [true] for a number of
    iterations and then [false].  When no iteration stops with a failure, the
    loop returns after exactly one raw capture per iteration, and has called
    the driver's [_stop()] unless [_running] was read [true] again after the
    loop.  When an iteration stops with a failure, the failure leaves the
    loop: the remaining iterations are not run and [_stop()] is not
    called. *)
Theorem captureLoop_runs iterations reread c : ∀ w,
  match _captureLoop iterations reread c w with
  | Returned stop_called w' =>
      stop_called = negb reread ∧
      ∃ new, events w' = events w ++ new ∧ captures new = length iterations
  | Terminated e w' =>
      ∃ new, events w' = events w ++ new ∧
             (1 ≤ captures new ≤ length iterations)%nat
  end.
Proof.
  induction iterations as [|drv rest IH]; intros w.
  - cbn. split; [done|]. exists []. by rewrite app_nil_r.
  - cbn [_captureLoop length].
    destruct (captureLoop_body_captures_once drv c w) as (new1 & Hev1 & Hcap1).
    destruct (_captureLoop_body drv c w) as [[] w1|w1|e w1]; cbn in Hev1.
    + specialize (IH w1).
      destruct (_captureLoop rest reread c w1) as [s w'|e w'].
      * destruct IH as (-> & new2 & Hev2 & Hcap2). split; [done|].
        exists (new1 ++ new2). rewrite Hev2, Hev1, app_assoc, captures_app.
        split; [done|lia].
      * destruct IH as (new2 & Hev2 & Hcap2).
        exists (new1 ++ new2). rewrite Hev2, Hev1, app_assoc, captures_app.
        split; [done|lia].
    + specialize (IH w1).
      destruct (_captureLoop rest reread c w1) as [s w'|e w'].
      * destruct IH as (-> & new2 & Hev2 & Hcap2). split; [done|].
        exists (new1 ++ new2). rewrite Hev2, Hev1, app_assoc, captures_app.
        split; [done|lia].
      * destruct IH as (new2 & Hev2 & Hcap2).
        exists (new1 ++ new2). rewrite Hev2, Hev1, app_assoc, captures_app.
        split; [done|lia].
    + exists new1. split; [done|lia].
Qed.

End ThreadRuns.
